(** * small_circles: spherical vector and projection geometry

    A shallow embedding of [small_circles.py].  NumPy/Python floats are
    idealised as real numbers ([R]): rounding is not modelled, so a property
    the specification states "within floating tolerance" is stated here as an
    exact equality over [R].  A 3-component array is the record [vec]; an
    (n, 3) array is a [list vec] (one element per row).  Where NumPy would
    produce [inf] or [nan] (a division by zero, the square root of a
    negative number) the real-valued functions below are still total; the
    theorems exclude those inputs by hypothesis.  Python exceptions are
    values of [result]. *)

From Stdlib Require Import Reals Lra Lia Psatz List ZArith Bool Permutation.
Import ListNotations.
Open Scope R_scope.

(** ** Numeric primitives of [math] and [numpy] *)

(** [math.radians] and [math.degrees]. *)
Definition radians (d : R) : R := d * (PI / 180).
Definition degrees (r : R) : R := r * (180 / PI).

(** Boolean comparisons on reals (the tests [a > b], [a < b], [a == b]). *)
Definition Rltb (a b : R) : bool := if Rlt_dec a b then true else false.
Definition Rgtb (a b : R) : bool := Rltb b a.
Definition Reqb (a b : R) : bool := if Req_dec_T a b then true else false.

(** [math.atan2 y x], the angle of the point (x, y) in (-pi, pi]. *)
Definition atan2 (y x : R) : R :=
  if Rltb 0 x then atan (y / x)
  else if Rltb x 0 then
         (if Rltb y 0 then atan (y / x) - PI else atan (y / x) + PI)
  else if Rltb 0 y then PI / 2
  else if Rltb y 0 then - (PI / 2)
  else 0.

(** Python's float [a % b]: the remainder takes the sign of the divisor,
    [a - b * floor (a / b)].  Over the reals it is always below a positive
    divisor; in floating point a tiny negative dividend gives a result that
    rounds to the divisor itself. *)
Definition py_mod (a b : R) : R := a - b * IZR (Int_part (a / b)).

(** [np.clip x lo hi]. *)
Definition clip (x lo hi : R) : R := Rmin (Rmax x lo) hi.

(** ** Three-component arrays *)

Record vec : Type := V3 { vx : R; vy : R; vz : R }.

Definition vadd (a b : vec) : vec := V3 (vx a + vx b) (vy a + vy b) (vz a + vz b).
Definition vsub (a b : vec) : vec := V3 (vx a - vx b) (vy a - vy b) (vz a - vz b).
Definition vscale (k : R) (a : vec) : vec := V3 (k * vx a) (k * vy a) (k * vz a).
Definition vdiv (a : vec) (k : R) : vec := V3 (vx a / k) (vy a / k) (vz a / k).
Definition vneg (a : vec) : vec := V3 (- vx a) (- vy a) (- vz a).

(** [a.dot(b)] and [np.cross(a, b)]. *)
Definition dot (a b : vec) : R := vx a * vx b + vy a * vy b + vz a * vz b.
Definition cross (a b : vec) : vec :=
  V3 (vy a * vz b - vz a * vy b)
     (vz a * vx b - vx a * vz b)
     (vx a * vy b - vy a * vx b).

Definition is_unit (a : vec) : Prop := dot a a = 1.

(** ** Module-level functions *)

(** [dcos_line((trend, plunge))] for one trend/plunge pair. *)
Definition dcos_line (trend plunge : R) : vec :=
  let tr := radians trend in
  let pl := radians plunge in
  V3 (cos pl * sin tr) (cos pl * cos tr) (- sin pl).

(** [normalized_cross(a, b)]: the zero cross product is returned as it is. *)
Definition normalized_cross (a b : vec) : vec :=
  let c := cross a b in
  let length := sqrt (dot c c) in
  if Rgtb length 0 then vdiv c length else c.

(** ** 3x3 arrays, by rows *)

Record mat : Type := M3 { row1 : vec; row2 : vec; row3 : vec }.

Definition col1 (m : mat) : vec := V3 (vx (row1 m)) (vx (row2 m)) (vx (row3 m)).
Definition col2 (m : mat) : vec := V3 (vy (row1 m)) (vy (row2 m)) (vy (row3 m)).
Definition col3 (m : mat) : vec := V3 (vz (row1 m)) (vz (row2 m)) (vz (row3 m)).

(** [np.eye(3)], [m.T], [m.dot(v)], [a.dot(b)], [np.outer(a, b)]. *)
Definition eye : mat := M3 (V3 1 0 0) (V3 0 1 0) (V3 0 0 1).
Definition transpose (m : mat) : mat := M3 (col1 m) (col2 m) (col3 m).
Definition mvec (m : mat) (v : vec) : vec :=
  V3 (dot (row1 m) v) (dot (row2 m) v) (dot (row3 m) v).
Definition mrow (r : vec) (b : mat) : vec :=
  V3 (dot r (col1 b)) (dot r (col2 b)) (dot r (col3 b)).
Definition mmul (a b : mat) : mat :=
  M3 (mrow (row1 a) b) (mrow (row2 a) b) (mrow (row3 a) b).
Definition outer (a b : vec) : mat :=
  M3 (vscale (vx a) b) (vscale (vy a) b) (vscale (vz a) b).
Definition madd (a b : mat) : mat :=
  M3 (vadd (row1 a) (row1 b)) (vadd (row2 a) (row2 b)) (vadd (row3 a) (row3 b)).
Definition msub (a b : mat) : mat :=
  M3 (vsub (row1 a) (row1 b)) (vsub (row2 a) (row2 b)) (vsub (row3 a) (row3 b)).
Definition mscale (k : R) (a : mat) : mat :=
  M3 (vscale k (row1 a)) (vscale k (row2 a)) (vscale k (row3 a)).

(** [np.linalg.inv] by the adjugate; it is only applied to the matrix of
    [build_rotation_matrix], whose determinant is 1. *)
Definition det (m : mat) : R := dot (row1 m) (cross (row2 m) (row3 m)).
Definition inv (m : mat) : mat :=
  mscale (/ det m)
    (transpose (M3 (cross (row2 m) (row3 m))
                   (cross (row3 m) (row1 m))
                   (cross (row1 m) (row2 m)))).

(** [build_rotation_matrix(azim, plng, rake)]; [R1], [R2] and [R3] are the
    three arrays of the source, multiplied as [R3.dot(R2).dot(R1)]. *)
Definition R1 (rake : R) : mat :=
  M3 (V3 (cos rake) 0 (sin rake))
     (V3 0 1 0)
     (V3 (- sin rake) 0 (cos rake)).

Definition R2 (plng : R) : mat :=
  M3 (V3 1 0 0)
     (V3 0 (cos plng) (sin plng))
     (V3 0 (- sin plng) (cos plng)).

Definition R3 (azim : R) : mat :=
  M3 (V3 (cos azim) (sin azim) 0)
     (V3 (- sin azim) (cos azim) 0)
     (V3 0 0 1).

Definition build_rotation_matrix (azim plng rake : R) : mat :=
  let azim := radians azim in
  let plng := radians plng in
  let rake := radians rake in
  mmul (mmul (R3 azim) (R2 plng)) (R1 rake).

(** ** Python values and exceptions *)

Inductive py_error : Type :=
| TypeError
| ValueError
| IndexError
| ZeroDivisionError.

Inductive result (A : Type) : Type :=
| Ok (a : A)
| Raise (e : py_error).
Arguments Ok {A} a.
Arguments Raise {A} e.

Definition bind {A B : Type} (r : result A) (k : A -> result B) : result B :=
  match r with
  | Ok a => k a
  | Raise e => Raise e
  end.

Notation "x <- r ;; k" := (bind r (fun x => k))
  (at level 61, r at next level, right associativity).

(** An argument handed to a function of [math]: a Python float or an array.
    [math] converts its arguments with [float()], which accepts an array
    only when it holds exactly one element. *)
Inductive pyval : Type :=
| PyFloat (r : R)
| PyArray (a : list R).

Definition as_float (v : pyval) : result R :=
  match v with
  | PyFloat r => Ok r
  | PyArray [r] => Ok r
  | PyArray _ => Raise TypeError
  end.

Definition math_atan2 (y x : pyval) : result R :=
  y' <- as_float y ;;
  x' <- as_float x ;;
  Ok (atan2 y' x').

Definition to_array (v : vec) : list R := [vx v; vy v; vz v].

(** [np.arange(start, stop, step)]: [ceil((stop - start) / step)] values
    [start + i * step]; a zero step is an error.  Over the reals every
    value is below [stop]; in floating point the quotient can round up past
    an integer, which adds one last value equal to [stop]. *)
Definition Rceil (x : R) : Z := (- Int_part (- x))%Z.

Definition arange (start stop step : R) : result (list R) :=
  if Reqb step 0 then Raise ZeroDivisionError
  else Ok (map (fun i => start + INR i * step)
               (seq 0 (Z.to_nat (Rceil ((stop - start) / step))))).

(** Running a list of fallible computations from left to right. *)
Fixpoint sequence {A : Type} (l : list (result A)) : result (list A) :=
  match l with
  | [] => Ok []
  | r :: t => a <- r ;; t' <- sequence t ;; Ok (a :: t')
  end.

(** Element-wise operation on two arrays of the same length. *)
Fixpoint zip_with {A B C : Type} (f : A -> B -> C) (l : list A) (l' : list B)
  : list C :=
  match l, l' with
  | a :: t, b :: t' => f a b :: zip_with f t t'
  | _, _ => []
  end.

(** [np.transpose] of a non-empty rectangular two-dimensional array, given
    by its rows: the list of its columns. *)
Fixpoint np_transpose {A : Type} (a : list (list A)) : list (list A) :=
  match a with
  | [] => []
  | row :: rest =>
      match rest with
      | [] => map (fun x => [x]) row
      | _ :: _ => zip_with cons row (np_transpose rest)
      end
  end.

(** ** class Vector *)

Module Vector.

(** [self.length] *)
Definition length (self : vec) : R := sqrt (dot self self).

(** [self.cross_with(other)] *)
Definition cross_with (self other : vec) : vec := cross self other.

(** [self.normalized_cross_with(other)] *)
Definition normalized_cross_with (self other : vec) : vec :=
  normalized_cross self other.

(** The [not precise] branch of [angle_with], which cannot fail.  With a
    zero-length operand the source divides by zero and returns [nan], a
    case outside the real-number reading of this file. *)
Definition angle_with_acos (self other : vec) : R :=
  let self_length := length self in
  let other_length := sqrt (dot other other) in
  acos (clip (dot self other / (self_length * other_length)) (-1) 1).

(** [self.angle_with(other, precise)].  With [precise] the source hands
    the array [self.cross_with(other)] itself to [math.atan2]. *)
Definition angle_with (self other : vec) (precise : bool) : result R :=
  if negb precise then Ok (angle_with_acos self other)
  else math_atan2 (PyArray (to_array (cross_with self other)))
                  (PyFloat (dot self other)).

(** [self.attitude], a (trend, plunge) pair in degrees. *)
Definition attitude (self : vec) : R * R :=
  let n := vdiv self (length self) in
  let z := vz n in
  let '(x, y) := if Rgtb z 0 then (- vx n, - vy n) else (vx n, vy n) in
  (py_mod (degrees (atan2 x y)) 360, degrees (asin (Rabs z))).

(** [self.direction_vector] *)
Definition direction_vector (self : vec) : vec :=
  if Reqb (Rabs (vz self)) 1 then V3 1 0 0
  else
    let direction := V3 (vy self) (- vx self) 0 in
    vdiv direction (length direction).

(** [self.dip_vector] *)
Definition dip_vector (self : vec) : vec :=
  cross (vdiv self (length self)) (direction_vector self).

Definition projection_matrix (self : vec) : mat := outer self self.

Definition rejection_matrix (self : vec) : mat :=
  msub eye (projection_matrix self).

Definition cross_product_matrix (self : vec) : mat :=
  M3 (V3 0 (- vz self) (vy self))
     (V3 (vz self) 0 (- vx self))
     (V3 (- vy self) (vx self) 0).

Definition get_rotation_matrix (self : vec) (theta : R) : mat :=
  madd (madd (mscale (cos theta) eye)
             (mscale (sin theta) (cross_product_matrix self)))
       (mscale (1 - cos theta) (projection_matrix self)).

(** [self.get_great_circle(step, offset)[0]]: the array held by the
    one-element tuple the source returns. *)
Definition get_great_circle (self : vec) (step offset : R)
  : result (list vec) :=
  r <- arange offset (2 * PI + offset) step ;;
  let theta_range := map (fun t => py_mod t (2 * PI)) r in
  Ok (map (fun theta =>
             vadd (vscale (cos theta) (direction_vector self))
                  (vscale (sin theta) (dip_vector self)))
          theta_range).

(** [self.get_small_circle(alpha, A, B, step, offset)]: both nappes. *)
Definition get_small_circle (self : vec) (alpha A B step offset : R)
  : result (list vec * list vec) :=
  sc <-
    (if Reqb A 0 && Reqb B 0 then
       gc <- get_great_circle self step offset ;;
       Ok (map (fun p => vadd (vscale (sin alpha) p)
                              (vscale (cos alpha) self)) gc)
     else
       theta_range <- arange 0 (2 * PI) step ;;
       let alpha_ :=
         map (fun t => alpha + A * cos (2 * t) + B * sin (2 * t))
             theta_range in
       gc <- get_great_circle self step 0 ;;
       if Nat.eqb (List.length gc) (List.length alpha_) then
         Ok (zip_with (fun p a => vadd (vscale (sin a) p)
                                       (vscale (cos a) self)) gc alpha_)
       else Raise ValueError) ;;
  Ok (sc, map vneg sc).

(** [self.arc_to(other, step)[0]] *)
Definition arc_to (self other : vec) (step : R) : result (list vec) :=
  let normal := mvec (rejection_matrix self) other in
  let normal := vdiv normal (sqrt (dot normal normal)) in
  theta_range <- arange 0 (angle_with_acos self other) step ;;
  Ok (map (fun theta => vadd (vscale (cos theta) self)
                             (vscale (sin theta) normal))
          theta_range).

(** [Vector.from_attitude(trend, plunge)] *)
Definition from_attitude (trend plunge : R) : vec := dcos_line trend plunge.

End Vector.

(** ** class VectorSet *)

Module VectorSet.

(** [self.normalized_cross_with(other)]: the rows are filled in the order
    of the two nested loops. *)
Definition normalized_cross_with (self other : list vec) : list vec :=
  flat_map
    (fun self_vector =>
       map (fun other_vector =>
              let cross := normalized_cross self_vector other_vector in
              if Rltb (vz cross) 0 then cross else vneg cross)
           other)
    self.

(** [self.angle_with(other, precise)]: the matrix of angles, by rows. *)
Definition angle_with (self other : list vec) (precise : bool)
  : result (list (list R)) :=
  sequence
    (map (fun self_vector =>
            sequence (map (fun other_vector =>
                             Vector.angle_with self_vector other_vector precise)
                          other))
         self).

End VectorSet.

(** ** class ProjectionBase and its three subclasses *)

Module Projection.

Inductive kind : Type := EqualAngle | Orthographic | EqualArea.

(** An instance: its class, [self.rotation], [self.R] and [self.I]. *)
Record t : Type := Build {
  cls : kind;
  rotation : option (R * R * R);
  R_ : mat;
  I_ : mat
}.

(** [ProjectionBase.__init__(self, rotation)] *)
Definition init (k : kind) (rotation : option (R * R * R)) : t :=
  match rotation with
  | Some (azim, plng, rake) =>
      let m := build_rotation_matrix azim plng rake in
      Build k rotation m (inv m)
  | None => Build k rotation eye eye
  end.

(** [self._dtr(x, y, z)] at one point. *)
Definition _dtr (k : kind) (p : vec) : R * R :=
  let '(x, y, z) := (vx p, vy p, vz p) in
  match k with
  | EqualAngle => (x / (1 - z), y / (1 - z))
  | Orthographic => (x, y)
  | EqualArea => (x * sqrt (1 / (1 - z)), y * sqrt (1 / (1 - z)))
  end.

(** [self._itr(X, Y)] at one point. *)
Definition _itr (k : kind) (P : R * R) : vec :=
  let '(X, Y) := P in
  match k with
  | EqualAngle =>
      V3 (2 * X / (1 + X * X + Y * Y))
         (2 * Y / (1 + X * X + Y * Y))
         ((-1 + X * X + Y * Y) / (1 + X * X + Y * Y))
  | Orthographic =>
      let '(x, y) := (X, Y) in
      V3 x y (sqrt (1 - x * x - y * y))
  | EqualArea =>
      let '(X, Y) := (X * sqrt 2, Y * sqrt 2) in
      V3 (sqrt (1 - (X * X + Y * Y) / 4) * X)
         (sqrt (1 - (X * X + Y * Y) / 4) * Y)
         (-1 + (X * X + Y * Y) / 2)
  end.

(** [self._pre_direct(data, invert_positive, rotate)] at one point: the
    triple (x, y, z) the source returns is kept as a [vec]. *)
Definition pre_direct_point (self : t) (invert_positive rotate : bool)
           (p : vec) : vec :=
  let q := match rotation self with
           | Some _ => if rotate then mvec (R_ self) p else p
           | None => p
           end in
  let '(x, y, z) := (vx q, vy q, vz q) in
  let d := 1 / sqrt (x * x + y * y + z * z) in
  if invert_positive then
    let c := (if Rgtb z 0 then -1 else 1) * d in
    V3 (c * x) (c * y) (c * z)
  else V3 (d * x) (d * y) (d * z).

(** The arrays are processed element-wise: an (n, 3) input is a list of
    points and the three coordinate arrays are kept as a list of rows. *)
Definition _pre_direct (self : t) (data : list vec)
           (invert_positive rotate : bool) : list vec :=
  map (pre_direct_point self invert_positive rotate) data.

Definition _post_inverse (self : t) (data : list vec) (rotate : bool)
  : list vec :=
  match rotation self with
  | Some _ => if rotate then map (mvec (I_ self)) data else data
  | None => data
  end.

(** The points of [self.direct(data, invert_positive, rotate)]: the source
    returns the tuple (X, Y) of two coordinate arrays, and this is the list
    of the points (X[i], Y[i]), that is [np.transpose] of that tuple, the
    form in which [as_lines] uses it. *)
Definition direct (self : t) (data : list vec)
           (invert_positive rotate : bool) : list (R * R) :=
  map (_dtr (cls self)) (_pre_direct self data invert_positive rotate).

(** [self.inverse(data, rotate)] on an (n, 2) array of rows (X, Y), the
    layout the source reads: it transposes [data] and takes the X and Y
    columns apart. *)
Definition inverse (self : t) (data : list (R * R)) (rotate : bool)
  : list vec :=
  _post_inverse self (map (_itr (cls self)) data) rotate.

(** [self.direct(data, invert_positive, rotate)] as the call returns it:
    the tuple (X, Y) of the two coordinate arrays. *)
Definition direct_arrays (self : t) (data : list vec)
           (invert_positive rotate : bool) : list R * list R :=
  let points := direct self data invert_positive rotate in
  (map fst points, map snd points).

(** A tuple of two arrays read as one two-dimensional array, as
    [np.transpose] does with the argument of [inverse]: two rows. *)
Definition as_array (XY : list R * list R) : list (list R) :=
  [fst XY; snd XY].

(** [self.inverse(data, rotate)] on any non-empty two-dimensional array:
    the call [self._itr( *np.transpose(data))] hands the rows of the
    transposed array to [_itr] as positional arguments, which must be
    exactly X and Y. *)
Definition inverse_array (self : t) (data : list (list R)) (rotate : bool)
  : result (list vec) :=
  match np_transpose data with
  | [X; Y] => Ok (inverse self (combine X Y) rotate)
  | _ => Raise TypeError
  end.

End Projection.

(** ** class ProjectionPlot: circle segmentation *)

Module ProjectionPlot.

(** [_clip_lines(data, z_tol)]: [current] and [results] are the two
    accumulators of the loop. *)
Fixpoint clip_loop (z_tol : R) (data : list vec)
         (current : list vec) (results : list (list vec))
  : list (list vec) :=
  match data with
  | [] => if Nat.eqb (length current) 0 then results
          else results ++ [current]
  | p :: rest =>
      if Rltb (vz p) z_tol then clip_loop z_tol rest (current ++ [p]) results
      else if Nat.eqb (length current) 0 then clip_loop z_tol rest current results
      else clip_loop z_tol rest [] (results ++ [current])
  end.

Definition _clip_lines (data : list vec) (z_tol : R) : list (list vec) :=
  clip_loop z_tol data [] [].

(** [seg[0]] and [seg[-1]]. *)
Definition first (seg : list vec) : result vec :=
  match seg with
  | [] => Raise IndexError
  | p :: _ => Ok p
  end.

Definition last (seg : list vec) : result vec :=
  match rev seg with
  | [] => Raise IndexError
  | p :: _ => Ok p
  end.

(** The test [abs(p.angle_with(q)) < c_tol]. *)
Definition close (c_tol : R) (p q : vec) : bool :=
  Rltb (Rabs (Vector.angle_with_acos p q)) c_tol.

(** One pass through the body of the [while] loop of [_join_segments],
    entered with at least two segments: the new value of [all_joined] and
    the new list. *)
Definition join_body (c_tol : R) (segments : list (list vec))
  : result (bool * list (list vec)) :=
  match segments with
  | segment :: segment_b :: segments' =>
      s_last <- last segment ;;
      b_first <- first segment_b ;;
      if close c_tol s_last b_first then
        Ok (false, segments' ++ [segment ++ segment_b])
      else
        s_first <- first segment ;;
        b_last <- last segment_b ;;
        if close c_tol s_first b_last then
          Ok (false, segments' ++ [segment_b ++ segment])
        else if close c_tol s_last b_last then
          Ok (false, segments' ++ [segment ++ rev segment_b])
        else if close c_tol s_first b_first then
          Ok (false, segments' ++ [segment_b ++ rev segment])
        else Ok (true, segment_b :: segments' ++ [segment])
  | _ => Raise IndexError
  end.

(** The [while not all_joined and len(segments) > 1] loop.  Every pass
    either shortens the list or ends the loop, so [fuel] equal to the
    number of segments is never used up. *)
Fixpoint join_while (c_tol : R) (fuel : nat) (all_joined : bool)
         (segments : list (list vec)) : result (list (list vec)) :=
  if negb all_joined && Nat.ltb 1 (length segments) then
    match fuel with
    | O => Ok segments
    | S fuel' =>
        st <- join_body c_tol segments ;;
        join_while c_tol fuel' (fst st) (snd st)
    end
  else Ok segments.

Definition _join_segments (segments : list (list vec)) (c_tol : R)
  : result (list (list vec)) :=
  join_while c_tol (length segments) false segments.

End ProjectionPlot.

(** ** Samplers *)

(** The generator of [np.random] is a state [G]; each draw returns the
    sample and the next state. *)
Section Sampling.

Variable G : Type.
Variable random_normal : nat -> G -> list vec * G.
Variable random_uniform : R -> R -> nat -> G -> list R * G.
Variable random_vonmises : R -> R -> nat -> G -> list R * G.

(** [sample_fisher(mean_vector, kappa, n)] *)
Definition sample_fisher (mean_vector : vec) (kappa : R) (n : nat) (g : G)
  : list vec * G :=
  let direction_vector := Vector.direction_vector mean_vector in
  let dip_vector := Vector.dip_vector mean_vector in
  let '(theta_sample, g) := random_uniform 0 (2 * PI) n g in
  let '(alpha_sample, g) := random_vonmises 0 (kappa / 2) n g in
  (zip_with
     (fun theta alpha =>
        vadd (vscale (sin alpha)
                     (vadd (vscale (cos theta) direction_vector)
                           (vscale (sin theta) dip_vector)))
             (vscale (cos alpha) mean_vector))
     theta_sample alpha_sample,
   g).

(** [sample_uniform(n)] *)
Definition sample_uniform (n : nat) (g : G) : list vec * G :=
  let '(samples, g) := random_normal n g in
  (map (fun s => vdiv s (sqrt (dot s s))) samples, g).

End Sampling.

(** ** Auxiliary definitions used to state the properties *)

(** The row that [VectorSet.normalized_cross_with] stores for one pair. *)
Definition oriented_cross (a b : vec) : vec :=
  let c := normalized_cross a b in
  if Rltb (vz c) 0 then c else vneg c.

(** Elementary rotations about the coordinate axes, written in the sign
    convention of the array [R3] of [build_rotation_matrix] (the frame is
    turned, so a vector's coordinates turn the other way). *)
Definition rot_x (t : R) : mat :=
  M3 (V3 1 0 0)
     (V3 0 (cos t) (sin t))
     (V3 0 (- sin t) (cos t)).

Definition rot_y (t : R) : mat :=
  M3 (V3 (cos t) 0 (- sin t))
     (V3 0 1 0)
     (V3 (sin t) 0 (cos t)).

Definition rot_z (t : R) : mat :=
  M3 (V3 (cos t) (sin t) 0)
     (V3 (- sin t) (cos t) 0)
     (V3 0 0 1).

(** The composition the specification describes: rake about x first, then
    plunge about y, then azimuth about z. *)
Definition rotation_x_then_y_then_z (azim plng rake : R) : mat :=
  mmul (mmul (rot_z azim) (rot_y plng)) (rot_x rake).

Definition orthonormal (m : mat) : Prop :=
  mmul m (transpose m) = eye /\ mmul (transpose m) m = eye.

(** The point [_pre_direct] works on: the input, rotated when asked to and
    when the projection has a rotation. *)
Definition rotated (self : Projection.t) (rotate : bool) (p : vec) : vec :=
  match Projection.rotation self with
  | Some _ => if rotate then mvec (Projection.R_ self) p else p
  | None => p
  end.

(** What the specification asks of the result of [_join_segments]: no two
    distinct segments have an end of one within [c_tol] of an end of the
    other. *)
Definition endpoint (seg : list vec) (p : vec) : Prop :=
  ProjectionPlot.first seg = Ok p \/ ProjectionPlot.last seg = Ok p.

Definition joinable (c_tol : R) (s1 s2 : list vec) : Prop :=
  exists p q, endpoint s1 p /\ endpoint s2 q /\
              ProjectionPlot.close c_tol p q = true.

Definition fully_joined (c_tol : R) (segments : list (list vec)) : Prop :=
  forall i j s1 s2,
    i <> j -> nth_error segments i = Some s1 -> nth_error segments j = Some s2 ->
    ~ joinable c_tol s1 s2.

(** A generator that repeats fixed draws, to run the samplers on concrete
    inputs. *)
Definition constant_normal (s : vec) (n : nat) (g : unit) : list vec * unit :=
  (repeat s n, g).
Definition constant_draw (lo hi : R) (n : nat) (g : unit) : list R * unit :=
  (repeat hi n, g).

(** ** Auxiliary definitions for the further properties *)

(** The test [z < z_tol] of [_clip_lines]. *)
Definition inside (z_tol : R) (p : vec) : bool := Rltb (vz p) z_tol.

(** A segment as [_clip_lines] makes them: not empty, every point inside. *)
Definition visible_segment (z_tol : R) (s : list vec) : Prop :=
  s <> [] /\ Forall (fun p => vz p < z_tol) s.


(** [sphere_line(dcos_data)], one (trend, plunge) pair per row; the sign is
    read off [z] before it is clipped. *)
Definition sphere_line_row (p : vec) : R * R :=
  let '(x, y, z) := (vx p, vy p, vz p) in
  let sign_z := if Rgtb z 0 then -1 else 1 in
  let z := clip z (-1) 1 in
  (py_mod (degrees (atan2 (sign_z * x) (sign_z * y))) 360,
   degrees (asin (Rabs z))).

Definition sphere_line (dcos_data : list vec) : list (R * R) :=
  map sphere_line_row dcos_data.

(** [VectorSet.attitude] *)
Definition VectorSet_attitude (self : list vec) : list (R * R) :=
  sphere_line self.


(** The shape of [get_rotation_matrix]: a combination of the identity, the
    cross-product matrix and the projection matrix of one vector. *)
Definition rodrigues (self : vec) (a b c : R) : mat :=
  madd (madd (mscale a eye) (mscale b (Vector.cross_product_matrix self)))
       (mscale c (Vector.projection_matrix self)).


(** The points of the plane on which [_itr] is defined and can be undone by
    [_dtr]: the whole plane for EqualAngle, the closed unit disk for
    Orthographic, the open disk of squared radius 2 for EqualArea. *)
Definition inverse_domain (k : Projection.kind) (P : R * R) : Prop :=
  match k with
  | Projection.EqualAngle => True
  | Projection.Orthographic => fst P * fst P + snd P * snd P <= 1
  | Projection.EqualArea => fst P * fst P + snd P * snd P < 2
  end.


(** [VectorSet.get_great_circle(step)]: the generator yields, for each
    vector in turn, the great circle of that vector with the default
    offset; each item is computed when it is asked for. *)
Definition VectorSet_get_great_circle (self : list vec) (step : R)
  : list (result (list vec)) :=
  map (fun vector => Vector.get_great_circle vector step 0) self.

(** * Properties *)

(** ** Comparisons and elementary facts *)

Lemma Rltb_true (a b : R) : a < b -> Rltb a b = true.
Proof. intros H. unfold Rltb. destruct (Rlt_dec a b); [reflexivity | contradiction]. Qed.

Lemma Rltb_false (a b : R) : b <= a -> Rltb a b = false.
Proof. intros H. unfold Rltb. destruct (Rlt_dec a b); [lra | reflexivity]. Qed.

Lemma Rltb_spec (a b : R) : Rltb a b = true <-> a < b.
Proof. unfold Rltb. destruct (Rlt_dec a b); split; intros; try easy. Qed.

Lemma Reqb_true (a b : R) : a = b -> Reqb a b = true.
Proof. intros H. unfold Reqb. destruct (Req_dec_T a b); [reflexivity | contradiction]. Qed.

Lemma Reqb_false (a b : R) : a <> b -> Reqb a b = false.
Proof. intros H. unfold Reqb. destruct (Req_dec_T a b); [contradiction | reflexivity]. Qed.

Lemma sin_cos_sum (t : R) : sin t * sin t + cos t * cos t = 1.
Proof. pose proof (sin2_cos2 t) as H. unfold Rsqr in H. exact H. Qed.

Lemma radians_degrees (r : R) : degrees (radians r) = r.
Proof. unfold degrees, radians. field. pose proof PI_RGT_0. lra. Qed.

Lemma degrees_radians (r : R) : radians (degrees r) = r.
Proof. unfold degrees, radians. field. pose proof PI_RGT_0. lra. Qed.

(** [py_mod] leaves a value of [0, b) alone and brings [-b, 0) up by [b]. *)
Lemma py_mod_small (a b : R) : 0 <= a < b -> py_mod a b = a.
Proof.
  intros [H0 H1]. unfold py_mod.
  assert (Hq : 0 <= a / b < 1).
  { split.
    - apply Rmult_le_pos; [lra | left; apply Rinv_0_lt_compat; lra].
    - apply (Rmult_lt_reg_r b); [lra |]. unfold Rdiv.
      rewrite Rmult_assoc, Rinv_l by lra. lra. }
  rewrite <- (Int_part_spec (a / b) 0); simpl; lra.
Qed.

Lemma py_mod_negative (a b : R) : - b <= a < 0 -> py_mod a b = a + b.
Proof.
  intros [H0 H1]. unfold py_mod.
  assert (Hb : 0 < b) by lra.
  assert (Hq : -1 <= a / b < 0).
  { split.
    - apply (Rmult_le_reg_r b); [lra |]. unfold Rdiv.
      rewrite Rmult_assoc, Rinv_l by lra. lra.
    - apply (Rmult_lt_reg_r b); [lra |]. unfold Rdiv.
      rewrite Rmult_assoc, Rinv_l by lra. lra. }
  rewrite <- (Int_part_spec (a / b) (-1)); simpl; lra.
Qed.

(** ** [atan2] recovers the angle of a point given in polar form *)

Lemma tan_ratio (c t : R) : 0 < c -> cos t <> 0 -> c * sin t / (c * cos t) = tan t.
Proof. intros Hc Ht. unfold tan. field. split; lra. Qed.

Lemma tan_shift_minus (t : R) : tan (t - PI) = tan t.
Proof.
  unfold tan. rewrite sin_minus, cos_minus, sin_PI, cos_PI.
  replace (sin t * -1 - cos t * 0) with (- sin t) by ring.
  replace (cos t * -1 + sin t * 0) with (- cos t) by ring.
  destruct (Req_dec (cos t) 0) as [E | E].
  - rewrite E. unfold Rdiv. rewrite Ropp_0, Rinv_0. ring.
  - field. exact E.
Qed.

Lemma tan_shift_plus (t : R) : tan (t + PI) = tan t.
Proof.
  rewrite <- (tan_shift_minus (t + PI)). f_equal. ring.
Qed.

Lemma atan2_polar (c t : R) :
  0 < c -> - PI < t <= PI -> atan2 (c * sin t) (c * cos t) = t.
Proof.
  intros Hc [Hlo Hhi]. pose proof PI_RGT_0 as Hpi. unfold atan2.
  destruct (Rlt_dec t (- (PI / 2))) as [L1 | L1].
  - (* third quadrant *)
    assert (Hcos : cos t < 0).
    { rewrite <- cos_neg. apply cos_lt_0; lra. }
    assert (Hsin : sin t < 0) by (apply sin_lt_0_var; lra).
    rewrite (Rltb_false 0 (c * cos t)) by nra.
    rewrite (Rltb_true (c * cos t) 0) by nra.
    rewrite (Rltb_true (c * sin t) 0) by nra.
    rewrite tan_ratio by lra. rewrite <- tan_shift_plus.
    rewrite atan_tan by lra. ring.
  - destruct (Req_dec t (- (PI / 2))) as [E1 | E1].
    + subst t. rewrite cos_neg, sin_neg, cos_PI2, sin_PI2.
      rewrite (Rltb_false 0 (c * 0)) by lra.
      rewrite (Rltb_false (c * 0) 0) by lra.
      rewrite (Rltb_false 0 (c * - (1))) by lra.
      rewrite (Rltb_true (c * - (1)) 0) by lra. reflexivity.
    + destruct (Rlt_dec t (PI / 2)) as [L2 | L2].
      * assert (Hcos : 0 < cos t) by (apply cos_gt_0; lra).
        rewrite (Rltb_true 0 (c * cos t)) by nra.
        rewrite tan_ratio by lra. apply atan_tan. lra.
      * destruct (Req_dec t (PI / 2)) as [E2 | E2].
        -- subst t. rewrite cos_PI2, sin_PI2.
           rewrite (Rltb_false 0 (c * 0)) by lra.
           rewrite (Rltb_false (c * 0) 0) by lra.
           rewrite (Rltb_true 0 (c * 1)) by lra. reflexivity.
        -- assert (Hcos : cos t < 0) by (apply cos_lt_0; lra).
           assert (Hsin : 0 <= sin t) by (apply sin_ge_0; lra).
           rewrite (Rltb_false 0 (c * cos t)) by nra.
           rewrite (Rltb_true (c * cos t) 0) by nra.
           rewrite (Rltb_false (c * sin t) 0) by nra.
           rewrite tan_ratio by lra. rewrite <- tan_shift_minus.
           rewrite atan_tan by lra. ring.
Qed.

(** ** Attitude round trip *)

Lemma dcos_line_unit (trend plunge : R) : is_unit (dcos_line trend plunge).
Proof.
  unfold is_unit, dcos_line, dot; simpl.
  pose proof (sin_cos_sum (radians trend)) as Ht.
  pose proof (sin_cos_sum (radians plunge)) as Hp.
  nra.
Qed.

Lemma unit_length (v : vec) : is_unit v -> Vector.length v = 1.
Proof. intros H. unfold Vector.length. rewrite H. apply sqrt_1. Qed.

Lemma vdiv_1 (v : vec) : vdiv v 1 = v.
Proof. destruct v as [x y z]. unfold vdiv; simpl. f_equal; field. Qed.

Lemma radians_range (d lo hi : R) :
  lo <= d <= hi -> lo * (PI / 180) <= radians d <= hi * (PI / 180).
Proof. intros H. pose proof PI_RGT_0. unfold radians. nra. Qed.

Lemma attitude_of_dcos_line (trend plunge : R) :
  0 <= plunge <= 90 ->
  Vector.attitude (Vector.from_attitude trend plunge) =
  (py_mod (degrees (atan2 (cos (radians plunge) * sin (radians trend))
                          (cos (radians plunge) * cos (radians trend)))) 360,
   degrees (asin (Rabs (- sin (radians plunge))))).
Proof.
  intros Hp. unfold Vector.attitude, Vector.from_attitude.
  rewrite (unit_length _ (dcos_line_unit trend plunge)), vdiv_1.
  unfold dcos_line; simpl.
  pose proof (radians_range plunge 0 90 Hp) as Hr. pose proof PI_RGT_0.
  assert (Hs : 0 <= sin (radians plunge)) by (apply sin_ge_0; lra).
  unfold Rgtb. rewrite Rltb_false by lra. reflexivity.
Qed.

(** C2.  For trend in [0, 360) and plunge in [0, 90], the attitude of
    [Vector.from_attitude trend plunge] has plunge [plunge], and trend
    [trend] whenever [plunge < 90]; at the pole (plunge = 90) only the
    plunge is required.  Floats are read as reals, so "within floating
    tolerance" is equality. *)
Theorem from_attitude_attitude_roundtrip (trend plunge : R) :
  0 <= trend < 360 ->
  0 <= plunge <= 90 ->
  snd (Vector.attitude (Vector.from_attitude trend plunge)) = plunge /\
  (plunge < 90 ->
   fst (Vector.attitude (Vector.from_attitude trend plunge)) = trend).
Proof.
  intros Ht Hp. rewrite attitude_of_dcos_line by exact Hp. simpl.
  pose proof PI_RGT_0 as Hpi.
  pose proof (radians_range plunge 0 90 Hp) as Hr.
  split.
  - assert (Hs : 0 <= sin (radians plunge)) by (apply sin_ge_0; lra).
    rewrite Rabs_Ropp, Rabs_right by lra.
    rewrite asin_sin by lra. apply radians_degrees.
  - intros Hlt.
    assert (Hrt : 0 <= radians trend < 2 * PI) by (unfold radians; nra).
    assert (Hc : 0 < cos (radians plunge)).
    { apply cos_gt_0; unfold radians in *; nra. }
    destruct (Rle_dec (radians trend) PI) as [Hle | Hgt].
    + rewrite atan2_polar by lra.
      rewrite radians_degrees. apply py_mod_small. unfold radians in Hle. nra.
    + replace (sin (radians trend)) with (sin (radians trend - 2 * PI)).
      2:{ rewrite sin_minus, sin_2PI, cos_2PI. ring. }
      replace (cos (radians trend)) with (cos (radians trend - 2 * PI)).
      2:{ rewrite cos_minus, sin_2PI, cos_2PI. ring. }
      rewrite atan2_polar by lra.
      replace (degrees (radians trend - 2 * PI)) with (trend - 360).
      2:{ unfold degrees, radians. field. lra. }
      rewrite py_mod_negative; [ring |].
      unfold radians in Hgt. nra.
Qed.

Lemma from_attitude_attitude_roundtrip_witness :
  0 <= 90 < 360 /\ 0 <= 0 <= 90 /\
  snd (Vector.attitude (Vector.from_attitude 90 0)) = 0 /\
  (0 < 90 -> fst (Vector.attitude (Vector.from_attitude 90 0)) = 90).
Proof.
  assert (H1 : 0 <= 90 < 360) by lra.
  assert (H2 : 0 <= 0 <= 90) by lra.
  split; [exact H1 |]. split; [exact H2 |].
  exact (from_attitude_attitude_roundtrip 90 0 H1 H2).
Defined.

(** ** Projection round trip *)

Lemma pre_direct_point_unit (k : Projection.kind) (rotate : bool) (v : vec) :
  is_unit v ->
  Projection.pre_direct_point (Projection.init k None) false rotate v = v.
Proof.
  intros Hu. unfold Projection.pre_direct_point; simpl.
  destruct v as [x y z]. unfold is_unit, dot in Hu. simpl in *.
  rewrite Hu, sqrt_1. f_equal; field.
Qed.

Lemma roundtrip_pointwise (k : Projection.kind) (v : vec) :
  is_unit v ->
  Projection.inverse (Projection.init k None)
    (Projection.direct (Projection.init k None) [v] false true) true
  = [Projection._itr k (Projection._dtr k v)].
Proof.
  intros Hu. unfold Projection.inverse, Projection.direct,
    Projection._post_inverse, Projection._pre_direct.
  cbn [map]. rewrite pre_direct_point_unit by exact Hu. reflexivity.
Qed.

Lemma equal_angle_itr_dtr (v : vec) :
  is_unit v -> vz v < 1 ->
  Projection._itr Projection.EqualAngle (Projection._dtr Projection.EqualAngle v) = v.
Proof.
  destruct v as [x y z]. unfold is_unit, dot; simpl. intros Hu Hz.
  assert (Hs : 1 + x / (1 - z) * (x / (1 - z)) + y / (1 - z) * (y / (1 - z))
               = 2 / (1 - z)).
  { replace (1 + x / (1 - z) * (x / (1 - z)) + y / (1 - z) * (y / (1 - z)))
      with (1 + (x * x + y * y) / ((1 - z) * (1 - z))) by (field; lra).
    replace (x * x + y * y) with ((1 - z) * (1 + z)) by nra.
    field; lra. }
  f_equal.
  - rewrite Hs. field; lra.
  - rewrite Hs. field; lra.
  - replace (-1 + x / (1 - z) * (x / (1 - z)) + y / (1 - z) * (y / (1 - z)))
      with (2 / (1 - z) - 2) by (rewrite <- Hs; ring).
    rewrite Hs. field; lra.
Qed.

Lemma equal_area_itr_dtr (v : vec) :
  is_unit v -> vz v < 1 ->
  Projection._itr Projection.EqualArea (Projection._dtr Projection.EqualArea v) = v.
Proof.
  destruct v as [x y z]. unfold is_unit, dot; simpl. intros Hu Hz.
  set (s := sqrt (1 / (1 - z))).
  assert (Hpos : 0 < 1 / (1 - z)).
  { unfold Rdiv. rewrite Rmult_1_l. apply Rinv_0_lt_compat. lra. }
  assert (Hs2 : s * s = 1 / (1 - z)) by (apply sqrt_sqrt; lra).
  assert (H22 : sqrt 2 * sqrt 2 = 2) by (apply sqrt_sqrt; lra).
  assert (Hr : x * s * sqrt 2 * (x * s * sqrt 2) + y * s * sqrt 2 * (y * s * sqrt 2)
               = 2 * (1 + z)).
  { replace (x * s * sqrt 2 * (x * s * sqrt 2) + y * s * sqrt 2 * (y * s * sqrt 2))
      with ((x * x + y * y) * (s * s) * (sqrt 2 * sqrt 2)) by ring.
    rewrite Hs2, H22.
    replace (x * x + y * y) with ((1 - z) * (1 + z)) by nra.
    field; lra. }
  rewrite Hr.
  assert (Hk : sqrt (1 - 2 * (1 + z) / 4) * (s * sqrt 2) = 1).
  { unfold s. rewrite <- !sqrt_mult by lra.
    replace ((1 - 2 * (1 + z) / 4) * (1 / (1 - z) * 2)) with 1 by (field; lra).
    apply sqrt_1. }
  f_equal.
  - replace (sqrt (1 - 2 * (1 + z) / 4) * (x * s * sqrt 2))
      with (x * (sqrt (1 - 2 * (1 + z) / 4) * (s * sqrt 2))) by ring.
    rewrite Hk. ring.
  - replace (sqrt (1 - 2 * (1 + z) / 4) * (y * s * sqrt 2))
      with (y * (sqrt (1 - 2 * (1 + z) / 4) * (s * sqrt 2))) by ring.
    rewrite Hk. ring.
  - field.
Qed.

(** The inverse orthographic map always lands in the upper hemisphere. *)
Lemma orthographic_itr_dtr (v : vec) :
  is_unit v -> vz v <= 0 ->
  Projection._itr Projection.Orthographic (Projection._dtr Projection.Orthographic v)
  = V3 (vx v) (vy v) (- vz v).
Proof.
  destruct v as [x y z]. unfold is_unit, dot; simpl. intros Hu Hz.
  f_equal. replace (1 - x * x - y * y) with (- z * - z) by nra.
  apply sqrt_square. lra.
Qed.

(** The tuple that [direct] returns for one point, and what [inverse]
    makes of it, as it is and transposed. *)
Lemma direct_arrays_one (self : Projection.t) (v : vec)
      (invert_positive rotate : bool) :
  exists X Y,
    Projection.direct self [v] invert_positive rotate = [(X, Y)] /\
    Projection.as_array (Projection.direct_arrays self [v] invert_positive rotate)
    = [[X]; [Y]].
Proof.
  unfold Projection.direct_arrays, Projection.as_array, Projection.direct,
    Projection._pre_direct. cbn [map fst snd].
  destruct (Projection._dtr (Projection.cls self)
              (Projection.pre_direct_point self invert_positive rotate v))
    as [X Y].
  exists X, Y. split; reflexivity.
Qed.

Lemma inverse_array_direct (self : Projection.t) (v : vec)
      (invert_positive rotate rotate' : bool) :
  Projection.inverse_array self
    (Projection.as_array (Projection.direct_arrays self [v] invert_positive rotate))
    rotate' = Raise TypeError.
Proof.
  destruct (direct_arrays_one self v invert_positive rotate) as [X [Y [_ E]]].
  rewrite E. reflexivity.
Qed.

Lemma inverse_array_transposed (self : Projection.t) (v : vec)
      (invert_positive rotate rotate' : bool) :
  Projection.inverse_array self
    (np_transpose
       (Projection.as_array (Projection.direct_arrays self [v] invert_positive rotate)))
    rotate'
  = Ok (Projection.inverse self
          (Projection.direct self [v] invert_positive rotate) rotate').
Proof.
  destruct (direct_arrays_one self v invert_positive rotate) as [X [Y [Ed E]]].
  rewrite E, Ed. reflexivity.
Qed.

(** C1, as the code has it.  [direct] returns the tuple (X, Y) of two
    arrays and [inverse] reads an array of (X, Y) rows, so the round trip
    goes through a transposition: for EqualAngle and EqualArea without
    rotation and a unit vector with [z <= 0], [inverse] applied to the
    transposed result of [direct [v]] with [invert_positive=False] gives
    back [v]. *)
Theorem roundtrip_through_transpose (k : Projection.kind) (v : vec) :
  k <> Projection.Orthographic ->
  is_unit v ->
  vz v <= 0 ->
  Projection.inverse_array (Projection.init k None)
    (np_transpose
       (Projection.as_array
          (Projection.direct_arrays (Projection.init k None) [v] false true)))
    true
  = Ok [v].
Proof.
  intros Hk Hu Hz. rewrite inverse_array_transposed.
  rewrite roundtrip_pointwise by exact Hu. do 2 f_equal.
  destruct k; [apply equal_angle_itr_dtr | contradiction | apply equal_area_itr_dtr];
    (exact Hu || lra).
Qed.

Lemma roundtrip_through_transpose_witness :
  Projection.EqualArea <> Projection.Orthographic /\
  is_unit (V3 (3 / 5) 0 (- (4 / 5))) /\
  vz (V3 (3 / 5) 0 (- (4 / 5))) <= 0 /\
  Projection.inverse_array (Projection.init Projection.EqualArea None)
    (np_transpose
       (Projection.as_array
          (Projection.direct_arrays (Projection.init Projection.EqualArea None)
                                    [V3 (3 / 5) 0 (- (4 / 5))] false true)))
    true
  = Ok [V3 (3 / 5) 0 (- (4 / 5))].
Proof.
  assert (H1 : Projection.EqualArea <> Projection.Orthographic) by discriminate.
  assert (H2 : is_unit (V3 (3 / 5) 0 (- (4 / 5)))).
  { unfold is_unit, dot; simpl. field. }
  assert (H3 : vz (V3 (3 / 5) 0 (- (4 / 5))) <= 0) by (simpl; lra).
  split; [exact H1 |]. split; [exact H2 |]. split; [exact H3 |].
  exact (roundtrip_through_transpose Projection.EqualArea (V3 (3 / 5) 0 (- (4 / 5)))
           H1 H2 H3).
Defined.

(** C1 fails as stated: handed the result of [direct [v]] itself, [inverse]
    transposes the two one-element arrays into a single row and calls
    [_itr] with one argument instead of two, which raises [TypeError]; so
    for the unit vector (0, 0, -1) no projection returns the vector. *)
Lemma inverse_of_direct_raises :
  is_unit (V3 0 0 (-1)) /\
  vz (V3 0 0 (-1)) <= 0 /\
  forall k : Projection.kind,
    Projection.inverse_array (Projection.init k None)
      (Projection.as_array
         (Projection.direct_arrays (Projection.init k None) [V3 0 0 (-1)] false true))
      true
    = Raise TypeError /\
    Projection.inverse_array (Projection.init k None)
      (Projection.as_array
         (Projection.direct_arrays (Projection.init k None) [V3 0 0 (-1)] false true))
      true
    <> Ok [V3 0 0 (-1)].
Proof.
  split; [unfold is_unit, dot; simpl; ring |]. split; [simpl; lra |].
  intros k. rewrite inverse_array_direct. split; [reflexivity | discriminate].
Qed.

(** Through the same transposition the inverse orthographic map, which
    always lands in the upper hemisphere, returns the mirror image of a
    vector of the lower one. *)
Lemma orthographic_through_transpose (v : vec) :
  is_unit v -> vz v <= 0 ->
  Projection.inverse_array (Projection.init Projection.Orthographic None)
    (np_transpose
       (Projection.as_array
          (Projection.direct_arrays (Projection.init Projection.Orthographic None)
                                    [v] false true)))
    true
  = Ok [V3 (vx v) (vy v) (- vz v)].
Proof.
  intros Hu Hz. rewrite inverse_array_transposed.
  rewrite roundtrip_pointwise by exact Hu.
  rewrite orthographic_itr_dtr; [reflexivity | exact Hu | exact Hz].
Qed.

(** ** [angle_with] *)

(** C4.  With [precise=True] the source hands the three-component cross
    product itself, not its magnitude, to [math.atan2]; the conversion of
    that array to a float fails, so the call raises [TypeError] for every
    pair of vectors instead of returning an angle. *)
Theorem angle_with_precise_raises (a b : vec) :
  Vector.angle_with a b true = Raise TypeError.
Proof. reflexivity. Qed.

Lemma angle_with_default_ok (a b : vec) :
  Vector.angle_with a b false = Ok (Vector.angle_with_acos a b).
Proof. reflexivity. Qed.

(** ** The local frame of a unit vector *)

Lemma dot_comm (a b : vec) : dot a b = dot b a.
Proof. unfold dot. ring. Qed.

Lemma lagrange (a b : vec) :
  dot (cross a b) (cross a b) = dot a a * dot b b - dot a b * dot a b.
Proof. unfold dot, cross; simpl. ring. Qed.

Lemma dot_cross_l (a b : vec) : dot a (cross a b) = 0.
Proof. unfold dot, cross; simpl. ring. Qed.

Lemma dot_cross_r (a b : vec) : dot b (cross a b) = 0.
Proof. unfold dot, cross; simpl. ring. Qed.

Lemma dot_vneg (a b : vec) : dot (vneg a) (vneg b) = dot a b.
Proof. unfold dot, vneg; simpl. ring. Qed.

Lemma vneg_unit (a : vec) : is_unit a -> is_unit (vneg a).
Proof. unfold is_unit. rewrite dot_vneg. trivial. Qed.

(** Dividing a non-zero vector by its length gives a unit vector. *)
Lemma normalize_unit (a : vec) :
  0 < dot a a -> is_unit (vdiv a (sqrt (dot a a))).
Proof.
  intros H. unfold is_unit.
  assert (Hs : sqrt (dot a a) * sqrt (dot a a) = dot a a) by (apply sqrt_sqrt; lra).
  assert (Hp : 0 < sqrt (dot a a)) by (apply sqrt_lt_R0; exact H).
  set (s := sqrt (dot a a)) in *.
  replace (dot (vdiv a s) (vdiv a s)) with (dot a a / (s * s)).
  - rewrite Hs. field. lra.
  - unfold dot, vdiv; simpl. field. lra.
Qed.

Lemma dot_vdiv_r (a b : vec) (k : R) : dot a (vdiv b k) = dot a b / k.
Proof.
  unfold dot, vdiv; simpl. unfold Rdiv. ring.
Qed.

(** A unit vector, a unit vector orthogonal to it and their bearings. *)
Record frame (self e1 e2 : vec) : Prop := Frame {
  frame_e1_unit : is_unit e1;
  frame_e2_unit : is_unit e2;
  frame_self_e1 : dot self e1 = 0;
  frame_self_e2 : dot self e2 = 0;
  frame_e1_e2 : dot e1 e2 = 0
}.

Lemma unit_polar (self : vec) :
  is_unit self -> Rabs (vz self) = 1 -> vx self = 0 /\ vy self = 0.
Proof.
  destruct self as [x y z]. unfold is_unit, dot; simpl. intros Hu Hz.
  assert (Hzz : z * z = 1).
  { destruct (Rcase_abs z) as [N | P].
    - rewrite Rabs_left in Hz by exact N. nra.
    - rewrite Rabs_right in Hz by exact P. nra. }
  split; nra.
Qed.

Lemma direction_vector_frame (self : vec) :
  is_unit self ->
  is_unit (Vector.direction_vector self) /\
  dot self (Vector.direction_vector self) = 0.
Proof.
  intros Hu. unfold Vector.direction_vector, Reqb.
  destruct (Req_dec_T (Rabs (vz self)) 1) as [E | E].
  - destruct (unit_polar self Hu E) as [Hx Hy]. split.
    + unfold is_unit, dot; simpl. ring.
    + unfold dot; simpl. rewrite Hx. ring.
  - set (direction := V3 (vy self) (- vx self) 0).
    assert (Hpos : 0 < dot direction direction).
    { destruct self as [x y z]. unfold is_unit, dot, direction in *; simpl in *.
      assert (Hz : z * z <> 1).
      { intros Hzz. apply E. destruct (Rcase_abs z) as [N | P].
        - rewrite Rabs_left by exact N. nra.
        - rewrite Rabs_right by exact P. nra. }
      nra. }
    split.
    + unfold Vector.length. apply normalize_unit. exact Hpos.
    + rewrite dot_vdiv_r.
      replace (dot self direction) with 0.
      * unfold Rdiv. ring.
      * unfold dot, direction; simpl. ring.
Qed.

Lemma vector_frame (self : vec) :
  is_unit self ->
  frame self (Vector.direction_vector self) (Vector.dip_vector self).
Proof.
  intros Hu. destruct (direction_vector_frame self Hu) as [Hd Ho].
  unfold Vector.dip_vector. rewrite (unit_length self Hu), vdiv_1.
  constructor.
  - exact Hd.
  - unfold is_unit in *. rewrite lagrange, Hu, Hd, Ho. ring.
  - exact Ho.
  - apply dot_cross_l.
  - apply dot_cross_r.
Qed.

(** Points of the circles drawn in a frame. *)
Lemma circle_point_unit (self e1 e2 : vec) (theta : R) :
  frame self e1 e2 ->
  is_unit (vadd (vscale (cos theta) e1) (vscale (sin theta) e2)) /\
  dot self (vadd (vscale (cos theta) e1) (vscale (sin theta) e2)) = 0.
Proof.
  intros [H1 H2 H3 H4 H5]. pose proof (sin_cos_sum theta) as Ht.
  unfold is_unit in *. split.
  - replace (dot (vadd (vscale (cos theta) e1) (vscale (sin theta) e2))
                 (vadd (vscale (cos theta) e1) (vscale (sin theta) e2)))
      with (cos theta * cos theta * dot e1 e1
            + 2 * (cos theta * sin theta) * dot e1 e2
            + sin theta * sin theta * dot e2 e2)
      by (unfold dot, vadd, vscale; simpl; ring).
    rewrite H1, H2, H5. lra.
  - replace (dot self (vadd (vscale (cos theta) e1) (vscale (sin theta) e2)))
      with (cos theta * dot self e1 + sin theta * dot self e2)
      by (unfold dot, vadd, vscale; simpl; ring).
    rewrite H3, H4. ring.
Qed.

Lemma cone_point (self p : vec) (alpha : R) :
  is_unit self -> is_unit p -> dot self p = 0 ->
  is_unit (vadd (vscale (sin alpha) p) (vscale (cos alpha) self)) /\
  dot self (vadd (vscale (sin alpha) p) (vscale (cos alpha) self)) = cos alpha.
Proof.
  intros Hs Hp Ho. pose proof (sin_cos_sum alpha) as Ht.
  unfold is_unit in *. split.
  - replace (dot (vadd (vscale (sin alpha) p) (vscale (cos alpha) self))
                 (vadd (vscale (sin alpha) p) (vscale (cos alpha) self)))
      with (sin alpha * sin alpha * dot p p
            + 2 * (sin alpha * cos alpha) * dot self p
            + cos alpha * cos alpha * dot self self)
      by (unfold dot, vadd, vscale; simpl; ring).
    rewrite Hs, Hp, Ho. lra.
  - replace (dot self (vadd (vscale (sin alpha) p) (vscale (cos alpha) self)))
      with (sin alpha * dot self p + cos alpha * dot self self)
      by (unfold dot, vadd, vscale; simpl; ring).
    rewrite Hs, Ho. ring.
Qed.

(** ** Great and small circles *)

Lemma arange_ok (start stop step : R) :
  step <> 0 -> exists l, arange start stop step = Ok l.
Proof.
  intros H. unfold arange. rewrite Reqb_false by exact H. eauto.
Qed.

(** A positive step over a non-empty range gives at least the start. *)
Lemma Rceil_pos (x : R) : 0 < x -> (1 <= Rceil x)%Z.
Proof.
  intros Hx. unfold Rceil. destruct (base_Int_part (- x)) as [Hle _].
  assert (Hlt : (Int_part (- x) < 0)%Z) by (apply lt_IZR; simpl; lra).
  lia.
Qed.

Lemma arange_first (start stop step : R) :
  0 < step -> start < stop ->
  exists l, arange start stop step = Ok (start :: l).
Proof.
  intros Hs Hr. unfold arange. rewrite Reqb_false by lra.
  assert (Hq : 0 < (stop - start) / step).
  { apply Rmult_lt_0_compat; [lra | apply Rinv_0_lt_compat; exact Hs]. }
  pose proof (Rceil_pos _ Hq) as Hc.
  destruct (Z.to_nat (Rceil ((stop - start) / step))) as [| n] eqn:En; [lia |].
  cbn [seq map]. eexists. do 2 f_equal. simpl. ring.
Qed.

Lemma clip_inside (x : R) : -1 <= x <= 1 -> clip x (-1) 1 = x.
Proof.
  intros [Hlo Hhi]. unfold clip.
  rewrite Rmax_left by lra. rewrite Rmin_left by lra. reflexivity.
Qed.

Lemma angle_with_acos_unit (self p : vec) (alpha : R) :
  is_unit self -> is_unit p -> dot self p = cos alpha -> 0 <= alpha <= PI ->
  Vector.angle_with_acos self p = alpha.
Proof.
  intros Hs Hp Hd Ha. unfold Vector.angle_with_acos.
  rewrite (unit_length self Hs), Hp, sqrt_1, Hd.
  replace (cos alpha / (1 * 1)) with (cos alpha) by field.
  rewrite clip_inside by apply COS_bound.
  apply acos_cos. exact Ha.
Qed.

Lemma get_great_circle_spec (self : vec) (step offset : R) :
  is_unit self -> step <> 0 ->
  exists gc, Vector.get_great_circle self step offset = Ok gc /\
             Forall (fun p => is_unit p /\ dot self p = 0) gc.
Proof.
  intros Hu Hs. unfold Vector.get_great_circle.
  destruct (arange_ok offset (2 * PI + offset) step Hs) as [l ->]. simpl.
  eexists. split; [reflexivity |].
  rewrite Forall_map. apply Forall_forall. intros theta _.
  apply circle_point_unit. apply vector_frame. exact Hu.
Qed.

Lemma get_great_circle_nonempty (self : vec) (step offset : R) :
  0 < step ->
  exists p gc, Vector.get_great_circle self step offset = Ok (p :: gc).
Proof.
  intros Hs. unfold Vector.get_great_circle. pose proof PI_RGT_0 as Hpi.
  destruct (arange_first offset (2 * PI + offset) step Hs) as [l ->]; [lra |].
  cbn [bind map]. eauto.
Qed.

(** C3.  For a unit axis, [alpha] in (0, pi) and [A = B = 0], the call
    [get_small_circle] returns two sequences; every point of the first is
    at angle [alpha] from the axis ([angle_with] with its default
    [precise=False]), and the second is the pointwise negation of the
    first.  The step is any non-zero one, the default included; with a
    positive step the sequences are not empty. *)
Theorem small_circle_membership (axis : vec) (alpha step offset : R) :
  is_unit axis ->
  0 < alpha < PI ->
  step <> 0 ->
  exists upper lower,
    Vector.get_small_circle axis alpha 0 0 step offset = Ok (upper, lower) /\
    Forall (fun p => Vector.angle_with axis p false = Ok alpha) upper /\
    lower = map vneg upper /\
    (0 < step -> upper <> []).
Proof.
  intros Hu Ha Hs. unfold Vector.get_small_circle.
  rewrite (Reqb_true 0 0) by reflexivity. cbn [andb].
  destruct (get_great_circle_spec axis step offset Hu Hs) as [gc [E Hgc]].
  rewrite E. cbn [bind]. do 2 eexists. split; [reflexivity |].
  split; [| split; [reflexivity |]].
  - rewrite Forall_map. revert Hgc. apply Forall_impl. intros p [Hp Ho].
    rewrite angle_with_default_ok. f_equal.
    destruct (cone_point axis p alpha Hu Hp Ho) as [Hq Hd].
    apply angle_with_acos_unit; try assumption. lra.
  - intros Hpos.
    destruct (get_great_circle_nonempty axis step offset Hpos) as [p [gc' E']].
    rewrite E in E'. injection E' as ->. discriminate.
Qed.

Lemma small_circle_membership_witness :
  is_unit (V3 0 0 (-1)) /\ 0 < PI / 2 < PI /\ radians 1 <> 0 /\
  exists upper lower,
    Vector.get_small_circle (V3 0 0 (-1)) (PI / 2) 0 0 (radians 1) 0
      = Ok (upper, lower) /\
    Forall (fun p => Vector.angle_with (V3 0 0 (-1)) p false = Ok (PI / 2)) upper /\
    lower = map vneg upper /\
    (0 < radians 1 -> upper <> []).
Proof.
  pose proof PI_RGT_0 as Hpi.
  assert (H1 : is_unit (V3 0 0 (-1))) by (unfold is_unit, dot; simpl; ring).
  assert (H2 : 0 < PI / 2 < PI) by lra.
  assert (H3 : radians 1 <> 0) by (unfold radians; lra).
  split; [exact H1 |]. split; [exact H2 |]. split; [exact H3 |].
  exact (small_circle_membership (V3 0 0 (-1)) (PI / 2) (radians 1) 0 H1 H2 H3).
Defined.

Lemma Forall_zip_with {A B C : Type} (P : C -> Prop) (Q : A -> Prop)
      (f : A -> B -> C) (l : list A) (l' : list B) :
  (forall a b, Q a -> P (f a b)) -> Forall Q l -> Forall P (zip_with f l l').
Proof.
  intros Hf Hl. revert l'. induction Hl as [| a l Ha Hl IH]; intros l'.
  - constructor.
  - destruct l' as [| b l']; simpl; constructor; auto.
Qed.

Lemma get_great_circle_length (self : vec) (step offset : R) (r : list R)
      (pts : list vec) :
  arange offset (2 * PI + offset) step = Ok r ->
  Vector.get_great_circle self step offset = Ok pts ->
  length pts = length r.
Proof.
  intros Hr. unfold Vector.get_great_circle. rewrite Hr. cbn [bind].
  intros E. injection E as <-. rewrite !length_map. reflexivity.
Qed.

(** The elliptical-modulation branch: the two arrays it multiplies have
    the same length, so the element-wise product is defined. *)
Lemma get_small_circle_modulated (self : vec) (alpha A B step offset : R) :
  is_unit self -> step <> 0 -> Reqb A 0 && Reqb B 0 = false ->
  exists sc, Vector.get_small_circle self alpha A B step offset
             = Ok (sc, map vneg sc) /\
             Forall is_unit sc.
Proof.
  intros Hu Hs Hab. unfold Vector.get_small_circle. rewrite Hab.
  destruct (arange_ok 0 (2 * PI) step Hs) as [r Hr]. rewrite Hr. cbn [bind].
  destruct (get_great_circle_spec self step 0 Hu Hs) as [gc [Hgc Hall]].
  rewrite Hgc. cbn [bind].
  assert (Hlen : length gc = length r).
  { apply (get_great_circle_length self step 0 r gc); [| exact Hgc].
    replace (2 * PI + 0) with (2 * PI) by ring. exact Hr. }
  rewrite length_map, Hlen, Nat.eqb_refl. cbn [bind].
  eexists. split; [reflexivity |].
  apply (Forall_zip_with is_unit (fun p => is_unit p /\ dot self p = 0)).
  - intros p a [Hp Ho]. apply (cone_point self p a Hu Hp Ho).
  - exact Hall.
Qed.

(** C10.  When [A <> 0] or [B <> 0], [get_small_circle] does not depend
    on its [offset] argument: that branch draws theta from
    [arange 0 (2 pi) step] and calls [get_great_circle] with the default
    offset. *)
Theorem small_circle_offset_ignored (axis : vec) (alpha A B step o1 o2 : R) :
  A <> 0 \/ B <> 0 ->
  Vector.get_small_circle axis alpha A B step o1 =
  Vector.get_small_circle axis alpha A B step o2.
Proof.
  intros Hab. unfold Vector.get_small_circle.
  assert (Hc : Reqb A 0 && Reqb B 0 = false).
  { destruct Hab as [H | H].
    - rewrite (Reqb_false A 0) by exact H. reflexivity.
    - rewrite (Reqb_false B 0) by exact H. apply andb_false_r. }
  rewrite Hc. reflexivity.
Qed.

Lemma small_circle_offset_ignored_witness :
  (1 <> 0 \/ 0 <> 0) /\
  Vector.get_small_circle (V3 0 0 (-1)) (PI / 4) 1 0 (radians 1) 0 =
  Vector.get_small_circle (V3 0 0 (-1)) (PI / 4) 1 0 (radians 1) (PI / 2).
Proof.
  assert (H : 1 <> 0 \/ 0 <> 0) by (left; lra).
  split; [exact H |].
  exact (small_circle_offset_ignored (V3 0 0 (-1)) (PI / 4) 1 0 (radians 1) 0 (PI / 2) H).
Defined.

(** ** Arcs *)

Lemma sum_squares_zero (a b c : R) : a * a + b * b + c * c = 0 -> a = 0 /\ b = 0 /\ c = 0.
Proof. intros H. repeat split; nra. Qed.

Lemma unit_parallel (a b : vec) :
  is_unit a -> is_unit b -> dot a b * dot a b = 1 -> b = a \/ b = vneg a.
Proof.
  intros Ha Hb Hd.
  assert (Hcases : dot a b = 1 \/ dot a b = -1) by nra.
  destruct a as [x1 y1 z1], b as [x2 y2 z2].
  unfold is_unit, dot, vneg in *; simpl in *.
  destruct Hcases as [H1 | H1].
  - left.
    destruct (sum_squares_zero (x2 - x1) (y2 - y1) (z2 - z1)) as [Hx [Hy Hz]]; [nra |].
    f_equal; lra.
  - right.
    destruct (sum_squares_zero (x2 + x1) (y2 + y1) (z2 + z1)) as [Hx [Hy Hz]]; [nra |].
    f_equal; lra.
Qed.

Lemma rejection_spec (self other : vec) :
  is_unit self ->
  let normal := mvec (Vector.rejection_matrix self) other in
  dot self normal = 0 /\
  dot normal normal = dot other other - dot self other * dot self other.
Proof.
  intros Hu normal. unfold is_unit in Hu.
  assert (E : normal = vsub other (vscale (dot self other) self)).
  { unfold normal, mvec, Vector.rejection_matrix, Vector.projection_matrix,
      msub, outer, eye, vsub, vscale, dot; simpl. f_equal; ring. }
  rewrite E. split.
  - replace (dot self (vsub other (vscale (dot self other) self)))
      with (dot self other - dot self other * dot self self)
      by (unfold dot, vsub, vscale; simpl; ring).
    rewrite Hu. ring.
  - replace (dot (vsub other (vscale (dot self other) self))
                 (vsub other (vscale (dot self other) self)))
      with (dot other other - 2 * (dot self other * dot self other)
            + dot self other * dot self other * dot self self)
      by (unfold dot, vsub, vscale; simpl; ring).
    rewrite Hu. ring.
Qed.

Lemma dot_self_nonneg (a : vec) : 0 <= dot a a.
Proof. unfold dot. nra. Qed.

Lemma arc_to_spec (self other : vec) (step : R) :
  is_unit self -> is_unit other -> other <> self -> other <> vneg self ->
  step <> 0 ->
  exists arc, Vector.arc_to self other step = Ok arc /\ Forall is_unit arc.
Proof.
  intros Hs Ho Hne Hnn Hstep. unfold Vector.arc_to.
  destruct (rejection_spec self other Hs) as [Horth Hnorm].
  set (normal := mvec (Vector.rejection_matrix self) other) in *.
  assert (Hpos : 0 < dot normal normal).
  { pose proof (dot_self_nonneg normal) as Hge.
    destruct (Req_dec (dot normal normal) 0) as [E | E]; [| lra].
    exfalso. rewrite Hnorm, Ho in E.
    destruct (unit_parallel self other Hs Ho) as [H | H]; [lra | | ]; contradiction. }
  destruct (arange_ok 0 (Vector.angle_with_acos self other) step Hstep) as [l ->].
  cbn [bind]. eexists. split; [reflexivity |].
  rewrite Forall_map. apply Forall_forall. intros theta _.
  pose proof (normalize_unit normal Hpos) as Hn.
  assert (Hon : dot self (vdiv normal (sqrt (dot normal normal))) = 0).
  { rewrite dot_vdiv_r, Horth. unfold Rdiv. ring. }
  pose proof (sin_cos_sum theta) as Ht. unfold is_unit in *.
  set (n := vdiv normal (sqrt (dot normal normal))) in *.
  replace (dot (vadd (vscale (cos theta) self) (vscale (sin theta) n))
               (vadd (vscale (cos theta) self) (vscale (sin theta) n)))
    with (cos theta * cos theta * dot self self
          + 2 * (cos theta * sin theta) * dot self n
          + sin theta * sin theta * dot n n)
    by (unfold dot, vadd, vscale; simpl; ring).
  rewrite Hs, Hn, Hon. lra.
Qed.

(** ** Unit-sphere invariant *)

Lemma get_small_circle_unit (self : vec) (alpha A B step offset : R) :
  is_unit self -> step <> 0 ->
  exists upper lower,
    Vector.get_small_circle self alpha A B step offset = Ok (upper, lower) /\
    Forall is_unit upper /\ Forall is_unit lower.
Proof.
  intros Hu Hs. destruct (Reqb A 0 && Reqb B 0) eqn:Hab.
  - unfold Vector.get_small_circle. rewrite Hab.
    destruct (get_great_circle_spec self step offset Hu Hs) as [gc [-> Hgc]].
    cbn [bind]. do 2 eexists. split; [reflexivity |].
    assert (Hup : Forall is_unit
                    (map (fun p => vadd (vscale (sin alpha) p)
                                        (vscale (cos alpha) self)) gc)).
    { rewrite Forall_map. revert Hgc. apply Forall_impl. intros p [Hp Ho].
      apply (cone_point self p alpha Hu Hp Ho). }
    split; [exact Hup |].
    rewrite Forall_map. revert Hup. apply Forall_impl. intros p. apply vneg_unit.
  - destruct (get_small_circle_modulated self alpha A B step offset Hu Hs Hab)
      as [sc [-> Hsc]].
    do 2 eexists. split; [reflexivity |]. split; [exact Hsc |].
    rewrite Forall_map. revert Hsc. apply Forall_impl. intros p. apply vneg_unit.
Qed.

Lemma sample_uniform_unit (G : Type) (random_normal : nat -> G -> list vec * G)
      (n : nat) (g : G) :
  Forall (fun s => 0 < dot s s) (fst (random_normal n g)) ->
  Forall is_unit (fst (sample_uniform G random_normal n g)).
Proof.
  unfold sample_uniform. destruct (random_normal n g) as [samples g']. simpl.
  intros H. rewrite Forall_map. revert H. apply Forall_impl.
  intros s. apply normalize_unit.
Qed.

Lemma sample_fisher_unit (G : Type)
      (random_uniform random_vonmises : R -> R -> nat -> G -> list R * G)
      (mean_vector : vec) (kappa : R) (n : nat) (g : G) :
  is_unit mean_vector ->
  Forall is_unit
    (fst (sample_fisher G random_uniform random_vonmises mean_vector kappa n g)).
Proof.
  intros Hu. unfold sample_fisher.
  destruct (random_uniform 0 (2 * PI) n g) as [theta_sample g1].
  destruct (random_vonmises 0 (kappa / 2) n g1) as [alpha_sample g2]. simpl.
  apply (Forall_zip_with is_unit (fun _ => True)).
  - intros theta alpha _.
    destruct (circle_point_unit mean_vector _ _ theta (vector_frame mean_vector Hu))
      as [Hp Ho].
    apply (cone_point mean_vector _ alpha Hu Hp Ho).
  - apply Forall_forall. trivial.
Qed.

Lemma Forall_unit_length (l : list vec) :
  Forall is_unit l -> Forall (fun p => Vector.length p = 1) l.
Proof. apply Forall_impl. exact unit_length. Qed.

(** C9.  Every vector returned by [get_great_circle], [get_small_circle]
    (both nappes, any [alpha], [A], [B]), [arc_to], [sample_uniform] and
    [sample_fisher] has magnitude 1, for a unit axis, a unit target of
    [arc_to] that is neither the axis nor its antipode, a unit mean vector
    and a non-zero step.  The draws of the random generator are inputs of
    the samplers; the normal draws normalised by [sample_uniform] are taken
    to be non-zero vectors. *)
Theorem unit_sphere_invariant
        (G : Type) (random_normal : nat -> G -> list vec * G)
        (random_uniform random_vonmises : R -> R -> nat -> G -> list R * G)
        (axis other mean_vector : vec) (alpha A B step offset kappa : R)
        (n : nat) (g : G) :
  is_unit axis ->
  is_unit other -> other <> axis -> other <> vneg axis ->
  is_unit mean_vector ->
  step <> 0 ->
  Forall (fun s => 0 < dot s s) (fst (random_normal n g)) ->
  (exists gc, Vector.get_great_circle axis step offset = Ok gc /\
              Forall (fun p => Vector.length p = 1) gc) /\
  (exists upper lower,
      Vector.get_small_circle axis alpha A B step offset = Ok (upper, lower) /\
      Forall (fun p => Vector.length p = 1) upper /\
      Forall (fun p => Vector.length p = 1) lower) /\
  (exists arc, Vector.arc_to axis other step = Ok arc /\
               Forall (fun p => Vector.length p = 1) arc) /\
  Forall (fun p => Vector.length p = 1)
         (fst (sample_uniform G random_normal n g)) /\
  Forall (fun p => Vector.length p = 1)
         (fst (sample_fisher G random_uniform random_vonmises
                             mean_vector kappa n g)).
Proof.
  intros Hax Hot Hne Hnn Hmean Hstep Hdraws. repeat split.
  - destruct (get_great_circle_spec axis step offset Hax Hstep) as [gc [E Hgc]].
    exists gc. split; [exact E |]. apply Forall_unit_length.
    revert Hgc. apply Forall_impl. intros p [Hp _]. exact Hp.
  - destruct (get_small_circle_unit axis alpha A B step offset Hax Hstep)
      as [up [lo [E [Hup Hlo]]]].
    exists up, lo. auto using Forall_unit_length.
  - destruct (arc_to_spec axis other step Hax Hot Hne Hnn Hstep) as [arc [E Harc]].
    exists arc. auto using Forall_unit_length.
  - apply Forall_unit_length, sample_uniform_unit. exact Hdraws.
  - apply Forall_unit_length, sample_fisher_unit. exact Hmean.
Qed.

Lemma unit_sphere_invariant_witness :
  (is_unit (V3 0 0 (-1)) /\ is_unit (V3 1 0 0) /\
   V3 1 0 0 <> V3 0 0 (-1) /\ V3 1 0 0 <> vneg (V3 0 0 (-1)) /\
   is_unit (V3 0 1 0) /\ radians 1 <> 0 /\
   Forall (fun s => 0 < dot s s) (fst (constant_normal (V3 1 2 2) 2 tt))) /\
  (exists gc, Vector.get_great_circle (V3 0 0 (-1)) (radians 1) 0 = Ok gc /\
              Forall (fun p => Vector.length p = 1) gc) /\
  (exists upper lower,
      Vector.get_small_circle (V3 0 0 (-1)) (PI / 4) 0 0 (radians 1) 0
        = Ok (upper, lower) /\
      Forall (fun p => Vector.length p = 1) upper /\
      Forall (fun p => Vector.length p = 1) lower) /\
  (exists arc, Vector.arc_to (V3 0 0 (-1)) (V3 1 0 0) (radians 1) = Ok arc /\
               Forall (fun p => Vector.length p = 1) arc) /\
  Forall (fun p => Vector.length p = 1)
         (fst (sample_uniform unit (constant_normal (V3 1 2 2)) 2 tt)) /\
  Forall (fun p => Vector.length p = 1)
         (fst (sample_fisher unit constant_draw constant_draw
                             (V3 0 1 0) 200 2 tt)).
Proof.
  pose proof PI_RGT_0 as Hpi.
  assert (H1 : is_unit (V3 0 0 (-1))) by (unfold is_unit, dot; simpl; ring).
  assert (H2 : is_unit (V3 1 0 0)) by (unfold is_unit, dot; simpl; ring).
  assert (H3 : V3 1 0 0 <> V3 0 0 (-1)) by (intros E; injection E; intros; lra).
  assert (H4 : V3 1 0 0 <> vneg (V3 0 0 (-1))) by (intros E; injection E; intros; lra).
  assert (H5 : is_unit (V3 0 1 0)) by (unfold is_unit, dot; simpl; ring).
  assert (H6 : radians 1 <> 0) by (unfold radians; lra).
  assert (H7 : Forall (fun s => 0 < dot s s) (fst (constant_normal (V3 1 2 2) 2 tt))).
  { simpl. repeat constructor; unfold dot; simpl; lra. }
  split; [repeat split; assumption |].
  exact (unit_sphere_invariant unit (constant_normal (V3 1 2 2))
           constant_draw constant_draw
           (V3 0 0 (-1)) (V3 1 0 0) (V3 0 1 0) (PI / 4) 0 0 (radians 1) 0 200 2 tt
           H1 H2 H3 H4 H5 H6 H7).
Defined.

(** ** Pairwise normalised cross products *)

Lemma vectorset_rows_unfold (self other : list vec) :
  VectorSet.normalized_cross_with self other =
  flat_map (fun a => map (oriented_cross a) other) self.
Proof. reflexivity. Qed.

Lemma cross_nonzero (a b : vec) :
  is_unit a -> is_unit b -> b <> a -> b <> vneg a ->
  0 < dot (cross a b) (cross a b).
Proof.
  intros Ha Hb Hne Hnn.
  pose proof (dot_self_nonneg (cross a b)) as Hge.
  destruct (Req_dec (dot (cross a b) (cross a b)) 0) as [E | E]; [| lra].
  exfalso. rewrite lagrange, Ha, Hb in E.
  destruct (unit_parallel a b Ha Hb) as [H | H]; [lra | | ]; contradiction.
Qed.

Lemma oriented_cross_row (a b : vec) :
  is_unit a -> is_unit b -> b <> a -> b <> vneg a ->
  is_unit (oriented_cross a b) /\
  vz (oriented_cross a b) <= 0 /\
  (vz (cross a b) <> 0 -> vz (oriented_cross a b) < 0).
Proof.
  intros Ha Hb Hne Hnn.
  pose proof (cross_nonzero a b Ha Hb Hne Hnn) as Hpos.
  assert (HL : 0 < sqrt (dot (cross a b) (cross a b))) by (apply sqrt_lt_R0; exact Hpos).
  assert (Hn : normalized_cross a b
               = vdiv (cross a b) (sqrt (dot (cross a b) (cross a b)))).
  { unfold normalized_cross, Rgtb. rewrite Rltb_true by exact HL. reflexivity. }
  pose proof (normalize_unit (cross a b) Hpos) as Hu.
  unfold oriented_cross. rewrite Hn.
  set (L := sqrt (dot (cross a b) (cross a b))) in *.
  set (c := cross a b) in *.
  assert (Hz : vz (vdiv c L) = vz c / L) by reflexivity.
  assert (Hinv : 0 < / L) by (apply Rinv_0_lt_compat; exact HL).
  unfold Rltb. destruct (Rlt_dec (vz (vdiv c L)) 0) as [N | P].
  - split; [exact Hu |]. split; [lra |]. intros _. exact N.
  - split; [apply vneg_unit; exact Hu |].
    assert (Hneg : vz (vneg (vdiv c L)) = - (vz c / L)) by reflexivity.
    rewrite Hneg. rewrite Hz in P. split; [lra |].
    intros Hc.
    assert (Hq : vz c / L <> 0).
    { unfold Rdiv. intros E. apply Rmult_integral in E. destruct E; lra. }
    lra.
Qed.

(** C6, as the code has it.  For unit vectors with no parallel or
    antiparallel pair, every row of [normalized_cross_with] is a unit
    vector whose z-component is at most 0; it is strictly negative for
    every pair whose cross product is not horizontal. *)
Theorem normalized_cross_with_rows (self other : list vec) :
  Forall is_unit self ->
  Forall is_unit other ->
  (forall a b, In a self -> In b other -> b <> a /\ b <> vneg a) ->
  Forall (fun r => Vector.length r = 1 /\ vz r <= 0 /\
                   exists a b, In a self /\ In b other /\
                               r = oriented_cross a b /\
                               (vz (cross a b) <> 0 -> vz r < 0))
         (VectorSet.normalized_cross_with self other).
Proof.
  intros Hs Ho Hpar. rewrite vectorset_rows_unfold.
  apply Forall_forall. intros r Hr.
  apply in_flat_map in Hr. destruct Hr as [a [Ha Hr]].
  apply in_map_iff in Hr. destruct Hr as [b [<- Hb]].
  destruct (Hpar a b Ha Hb) as [Hne Hnn].
  rewrite Forall_forall in Hs, Ho.
  destruct (oriented_cross_row a b (Hs a Ha) (Ho b Hb) Hne Hnn) as [Hu [Hle Hlt]].
  split; [apply unit_length; exact Hu |]. split; [exact Hle |].
  exists a, b. auto.
Qed.

Lemma normalized_cross_with_rows_witness :
  Forall is_unit [V3 1 0 0] /\
  Forall is_unit [V3 0 1 0] /\
  (forall a b, In a [V3 1 0 0] -> In b [V3 0 1 0] -> b <> a /\ b <> vneg a) /\
  Forall (fun r => Vector.length r = 1 /\ vz r <= 0 /\
                   exists a b, In a [V3 1 0 0] /\ In b [V3 0 1 0] /\
                               r = oriented_cross a b /\
                               (vz (cross a b) <> 0 -> vz r < 0))
         (VectorSet.normalized_cross_with [V3 1 0 0] [V3 0 1 0]).
Proof.
  assert (H1 : Forall is_unit [V3 1 0 0]).
  { repeat constructor; unfold is_unit, dot; simpl; ring. }
  assert (H2 : Forall is_unit [V3 0 1 0]).
  { repeat constructor; unfold is_unit, dot; simpl; ring. }
  assert (H3 : forall a b, In a [V3 1 0 0] -> In b [V3 0 1 0] ->
                           b <> a /\ b <> vneg a).
  { intros a b [<- | []] [<- | []]. split; intros E; injection E; intros; lra. }
  split; [exact H1 |]. split; [exact H2 |]. split; [exact H3 |].
  exact (normalized_cross_with_rows [V3 1 0 0] [V3 0 1 0] H1 H2 H3).
Defined.

Lemma sqrt_1_of (x : R) : x = 1 -> sqrt x = 1.
Proof. intros ->. apply sqrt_1. Qed.

(** C6 fails as stated: the unit vectors (1, 0, 0) and (0, 0, 1) are not
    parallel, and their row is (0, 1, 0), whose z-component is 0. *)
Lemma normalized_cross_with_horizontal :
  Forall is_unit [V3 1 0 0] /\
  Forall is_unit [V3 0 0 1] /\
  (forall a b, In a [V3 1 0 0] -> In b [V3 0 0 1] -> b <> a /\ b <> vneg a) /\
  ~ Forall (fun r => Vector.length r = 1 /\ vz r < 0)
           (VectorSet.normalized_cross_with [V3 1 0 0] [V3 0 0 1]).
Proof.
  split; [repeat constructor; unfold is_unit, dot; simpl; ring |].
  split; [repeat constructor; unfold is_unit, dot; simpl; ring |].
  split.
  - intros a b [<- | []] [<- | []]. split; intros E; injection E; intros; lra.
  - intros H. inversion H as [| r l [_ Hz] _]; subst. revert Hz.
    unfold normalized_cross, cross, dot, Rgtb; simpl.
    rewrite (sqrt_1_of _) by ring.
    rewrite (Rltb_true 0 1) by lra. simpl.
    rewrite Rltb_false by (simpl; lra). simpl. lra.
Qed.

(** ** Rotation matrices *)

Ltac mat_ring :=
  unfold mmul, mrow, transpose, col1, col2, col3, eye, dot; simpl;
  f_equal; f_equal; ring.

Ltac vec_ring :=
  unfold mvec, mmul, mrow, transpose, col1, col2, col3, eye, dot; simpl;
  f_equal; ring.

Lemma mmul_assoc (a b c : mat) : mmul (mmul a b) c = mmul a (mmul b c).
Proof. destruct a as [[] [] []], b as [[] [] []], c as [[] [] []]. mat_ring. Qed.

Lemma transpose_mmul (a b : mat) :
  transpose (mmul a b) = mmul (transpose b) (transpose a).
Proof. destruct a as [[] [] []], b as [[] [] []]. mat_ring. Qed.

Lemma mmul_eye_l (a : mat) : mmul eye a = a.
Proof. destruct a as [[] [] []]. mat_ring. Qed.

Lemma mmul_eye_r (a : mat) : mmul a eye = a.
Proof. destruct a as [[] [] []]. mat_ring. Qed.

Lemma mvec_mmul (a b : mat) (v : vec) : mvec (mmul a b) v = mvec a (mvec b v).
Proof. destruct a as [[] [] []], b as [[] [] []], v. vec_ring. Qed.

Lemma mvec_eye (v : vec) : mvec eye v = v.
Proof. destruct v. vec_ring. Qed.

Lemma orthonormal_mmul (a b : mat) :
  orthonormal a -> orthonormal b -> orthonormal (mmul a b).
Proof.
  intros [Ha1 Ha2] [Hb1 Hb2]. unfold orthonormal. rewrite transpose_mmul. split.
  - rewrite mmul_assoc, <- (mmul_assoc b), Hb1, mmul_eye_l. exact Ha1.
  - rewrite mmul_assoc, <- (mmul_assoc (transpose a)), Ha2, mmul_eye_l. exact Hb2.
Qed.

Ltac rot_orthonormal t :=
  pose proof (sin_cos_sum t);
  split; unfold mmul, mrow, transpose, col1, col2, col3, eye, dot; simpl;
  f_equal; f_equal; nra.

Lemma rot_x_orthonormal (t : R) : orthonormal (rot_x t).
Proof. rot_orthonormal t. Qed.

Lemma rot_y_orthonormal (t : R) : orthonormal (rot_y t).
Proof. rot_orthonormal t. Qed.

Lemma rot_z_orthonormal (t : R) : orthonormal (rot_z t).
Proof. rot_orthonormal t. Qed.

(** Each elementary rotation leaves its own axis in place. *)
Lemma rot_axes_fixed (t : R) :
  mvec (rot_x t) (V3 1 0 0) = V3 1 0 0 /\
  mvec (rot_y t) (V3 0 1 0) = V3 0 1 0 /\
  mvec (rot_z t) (V3 0 0 1) = V3 0 0 1.
Proof. repeat split; unfold mvec, dot; simpl; f_equal; ring. Qed.

(** The three arrays of the source as elementary rotations: [R1] turns
    about the y axis (by the opposite angle), [R2] about the x axis and
    [R3] about the z axis. *)
Lemma R1_rot_y (rake : R) : R1 rake = rot_y (- rake).
Proof. unfold R1, rot_y. rewrite cos_neg, sin_neg, Ropp_involutive. reflexivity. Qed.

Lemma R2_rot_x (plng : R) : R2 plng = rot_x plng.
Proof. reflexivity. Qed.

Lemma R3_rot_z (azim : R) : R3 azim = rot_z azim.
Proof. reflexivity. Qed.

Lemma build_rotation_matrix_orthonormal (azim plng rake : R) :
  orthonormal (build_rotation_matrix azim plng rake).
Proof.
  unfold build_rotation_matrix. rewrite R1_rot_y, R2_rot_x, R3_rot_z.
  auto using orthonormal_mmul, rot_x_orthonormal, rot_y_orthonormal,
    rot_z_orthonormal.
Qed.

(** C7, as the code has it.  The matrix is orthonormal and is the
    composition of three elementary rotations applied in the fixed order:
    rake about the y axis first (array [R1]), then plunge about the x axis
    (array [R2]), then azimuth about the z axis (array [R3]). *)
Theorem build_rotation_matrix_composition (azim plng rake : R) (v : vec) :
  orthonormal (build_rotation_matrix azim plng rake) /\
  build_rotation_matrix azim plng rake =
    mmul (mmul (rot_z (radians azim)) (rot_x (radians plng)))
         (rot_y (- radians rake)) /\
  mvec (build_rotation_matrix azim plng rake) v =
    mvec (rot_z (radians azim))
         (mvec (rot_x (radians plng)) (mvec (rot_y (- radians rake)) v)).
Proof.
  split; [apply build_rotation_matrix_orthonormal |].
  assert (E : build_rotation_matrix azim plng rake =
              mmul (mmul (rot_z (radians azim)) (rot_x (radians plng)))
                   (rot_y (- radians rake))).
  { unfold build_rotation_matrix. rewrite R1_rot_y. reflexivity. }
  split; [exact E |]. rewrite E, !mvec_mmul. reflexivity.
Qed.

(** C7 fails as stated: with azimuth = plunge = 0 and rake = 90 the matrix
    sends the x axis to (0, 0, -1), while a rotation about the x axis by
    any angle, composed with the identity turns about y and z, keeps the x
    axis where it is. *)
Lemma build_rotation_matrix_rake_not_about_x :
  mvec (build_rotation_matrix 0 0 90) (V3 1 0 0) = V3 0 0 (-1) /\
  (forall t, mvec (rotation_x_then_y_then_z (radians 0) (radians 0) t) (V3 1 0 0)
             = V3 1 0 0) /\
  build_rotation_matrix 0 0 90
    <> rotation_x_then_y_then_z (radians 0) (radians 0) (radians 90).
Proof.
  assert (H0 : radians 0 = 0) by (unfold radians; ring).
  assert (H90 : radians 90 = PI / 2).
  { unfold radians. field. }
  assert (Hb : mvec (build_rotation_matrix 0 0 90) (V3 1 0 0) = V3 0 0 (-1)).
  { unfold build_rotation_matrix, R1, R2, R3. rewrite H0, H90.
    rewrite cos_0, sin_0, cos_PI2, sin_PI2.
    unfold mvec, mmul, mrow, col1, col2, col3, dot; simpl. f_equal; ring. }
  assert (Hs : forall t,
             mvec (rotation_x_then_y_then_z (radians 0) (radians 0) t) (V3 1 0 0)
             = V3 1 0 0).
  { intros t. unfold rotation_x_then_y_then_z, rot_x, rot_y, rot_z.
    rewrite H0, cos_0, sin_0.
    unfold mvec, mmul, mrow, col1, col2, col3, dot; simpl. f_equal; ring. }
  split; [exact Hb |]. split; [exact Hs |].
  intros E. rewrite E, Hs in Hb. injection Hb; intros; lra.
Qed.

(** ** Preprocessing of [direct] *)

Lemma orthonormal_preserves_norm (m : mat) (v : vec) :
  orthonormal m -> dot (mvec m v) (mvec m v) = dot v v.
Proof.
  intros [_ H].
  replace (dot (mvec m v) (mvec m v)) with (dot v (mvec (mmul (transpose m) m) v)).
  - rewrite H, mvec_eye. reflexivity.
  - destruct m as [[] [] []], v.
    unfold mvec, mmul, mrow, transpose, col1, col2, col3, dot; simpl. ring.
Qed.

Lemma rotated_nonzero (k : Projection.kind) (rotation : option (R * R * R))
      (rotate : bool) (p : vec) :
  0 < dot p p ->
  0 < dot (rotated (Projection.init k rotation) rotate p)
          (rotated (Projection.init k rotation) rotate p).
Proof.
  intros Hp. unfold rotated, Projection.init.
  destruct rotation as [[[azim plng] rake] |]; simpl; [| exact Hp].
  destruct rotate; [| exact Hp].
  rewrite orthonormal_preserves_norm; [exact Hp |].
  apply build_rotation_matrix_orthonormal.
Qed.

Lemma pre_direct_point_invert (self : Projection.t) (rotate : bool) (p : vec) :
  let q := rotated self rotate p in
  Projection.pre_direct_point self true rotate p =
  if Rgtb (vz q) 0 then vneg (vdiv q (Vector.length q))
  else vdiv q (Vector.length q).
Proof.
  intros q. unfold Projection.pre_direct_point. fold (rotated self rotate p).
  fold q. destruct q as [x y z]. simpl.
  unfold Vector.length, dot, vdiv, vneg; simpl.
  destruct (Rgtb z 0); f_equal; unfold Rdiv; ring.
Qed.

(** C8.  With [invert_positive=True], whatever the rotation setting, every
    non-zero input point leaves the preprocessing of [direct] with
    magnitude 1 and z <= 0: it is the (rotated) point divided by its
    length, replaced by its antipode when its (rotated) z is positive. *)
Theorem pre_direct_invert_positive
        (k : Projection.kind) (rotation : option (R * R * R)) (rotate : bool)
        (data : list vec) :
  Forall (fun p => 0 < dot p p) data ->
  let self := Projection.init k rotation in
  Forall (fun q => Vector.length q = 1 /\ vz q <= 0)
         (Projection._pre_direct self data true rotate) /\
  Projection._pre_direct self data true rotate =
    map (fun p => let r := rotated self rotate p in
                  if Rgtb (vz r) 0 then vneg (vdiv r (Vector.length r))
                  else vdiv r (Vector.length r))
        data.
Proof.
  intros Hdata self.
  assert (E : Projection._pre_direct self data true rotate =
              map (fun p => let r := rotated self rotate p in
                            if Rgtb (vz r) 0 then vneg (vdiv r (Vector.length r))
                            else vdiv r (Vector.length r))
                  data).
  { unfold Projection._pre_direct. apply map_ext. intros p.
    apply pre_direct_point_invert. }
  split; [| exact E]. rewrite E, Forall_map.
  revert Hdata. apply Forall_impl. intros p Hp. cbv zeta.
  pose proof (rotated_nonzero k rotation rotate p Hp) as Hr.
  fold self in Hr. set (r := rotated self rotate p) in *.
  pose proof (normalize_unit r Hr) as Hu. fold (Vector.length r) in Hu.
  assert (HL : 0 < Vector.length r) by (apply sqrt_lt_R0; exact Hr).
  assert (Hinv : 0 < / Vector.length r) by (apply Rinv_0_lt_compat; exact HL).
  assert (Hz : vz (vdiv r (Vector.length r)) = vz r * / Vector.length r) by reflexivity.
  unfold Rgtb, Rltb. destruct (Rlt_dec 0 (vz r)) as [P | N].
  - split; [apply unit_length, vneg_unit; exact Hu |].
    change (vz (vneg (vdiv r (Vector.length r))))
      with (- vz (vdiv r (Vector.length r))).
    rewrite Hz. nra.
  - split; [apply unit_length; exact Hu |]. rewrite Hz. nra.
Qed.

Lemma pre_direct_invert_positive_witness :
  Forall (fun p => 0 < dot p p) [V3 0 3 4; V3 1 0 (-1)] /\
  Forall (fun q => Vector.length q = 1 /\ vz q <= 0)
         (Projection._pre_direct
            (Projection.init Projection.EqualArea (Some (30, 60, 0)))
            [V3 0 3 4; V3 1 0 (-1)] true true).
Proof.
  assert (H : Forall (fun p => 0 < dot p p) [V3 0 3 4; V3 1 0 (-1)]).
  { repeat constructor; unfold dot; simpl; lra. }
  split; [exact H |].
  exact (proj1 (pre_direct_invert_positive Projection.EqualArea (Some (30, 60, 0))
                  true [V3 0 3 4; V3 1 0 (-1)] H)).
Defined.

(** ** Joining segments *)

Lemma close_orthogonal (p q : vec) :
  is_unit p -> is_unit q -> dot p q = 0 ->
  ProjectionPlot.close (radians 1) p q = false.
Proof.
  intros Hp Hq Hd. unfold ProjectionPlot.close. pose proof PI_RGT_0 as Hpi.
  rewrite (angle_with_acos_unit p q (PI / 2) Hp Hq); [| rewrite cos_PI2; exact Hd | lra].
  apply Rltb_false. rewrite Rabs_right by lra. unfold radians. lra.
Qed.

Lemma close_same (c_tol : R) (p : vec) :
  is_unit p -> 0 < c_tol -> ProjectionPlot.close c_tol p p = true.
Proof.
  intros Hp Ht. unfold ProjectionPlot.close. pose proof PI_RGT_0 as Hpi.
  rewrite (angle_with_acos_unit p p 0 Hp Hp); [| rewrite cos_0; exact Hp | lra].
  apply Rltb_true. rewrite Rabs_R0. exact Ht.
Qed.

(** A pass that merges shortens the list by one; a pass that does not
    merge keeps its length and ends the loop. *)
Lemma join_body_length (c_tol : R) (segments : list (list vec))
      (all_joined : bool) (segments' : list (list vec)) :
  ProjectionPlot.join_body c_tol segments = Ok (all_joined, segments') ->
  if all_joined then length segments' = length segments
  else S (length segments') = length segments.
Proof.
  unfold ProjectionPlot.join_body.
  destruct segments as [| segment [| segment_b rest]]; try discriminate.
  destruct (ProjectionPlot.last segment) as [s_last |]; try discriminate.
  destruct (ProjectionPlot.first segment_b) as [b_first |]; try discriminate.
  cbn [bind].
  destruct (ProjectionPlot.close c_tol s_last b_first).
  { intros E. injection E as <- <-. rewrite length_app. simpl. lia. }
  destruct (ProjectionPlot.first segment) as [s_first |]; try discriminate.
  destruct (ProjectionPlot.last segment_b) as [b_last |]; try discriminate.
  cbn [bind].
  destruct (ProjectionPlot.close c_tol s_first b_last).
  { intros E. injection E as <- <-. rewrite length_app. simpl. lia. }
  destruct (ProjectionPlot.close c_tol s_last b_last).
  { intros E. injection E as <- <-. rewrite length_app. simpl. lia. }
  destruct (ProjectionPlot.close c_tol s_first b_first).
  { intros E. injection E as <- <-. rewrite length_app. simpl. lia. }
  intros E. injection E as <- <-. simpl. rewrite length_app. simpl. lia.
Qed.

(** The loop never runs out of fuel: more fuel than the number of segments
    changes nothing. *)
Lemma join_while_fuel (c_tol : R) (fuel : nat) :
  forall (all_joined : bool) (segments : list (list vec)),
    (length segments <= fuel)%nat ->
    ProjectionPlot.join_while c_tol (S fuel) all_joined segments =
    ProjectionPlot.join_while c_tol fuel all_joined segments.
Proof.
  induction fuel as [| fuel IH]; intros all_joined segments Hlen.
  - destruct segments; [| simpl in Hlen; lia].
    simpl. rewrite andb_false_r. reflexivity.
  - cbn [ProjectionPlot.join_while].
    destruct (negb all_joined && Nat.ltb 1 (length segments)) eqn:Hc; [| reflexivity].
    destruct (ProjectionPlot.join_body c_tol segments) as [[aj segs'] |] eqn:Hb;
      [| reflexivity].
    cbn [bind fst snd]. pose proof (join_body_length _ _ _ _ Hb) as Hl.
    destruct aj.
    + destruct fuel; simpl; reflexivity.
    + change (ProjectionPlot.join_while c_tol (S fuel) false segs' =
              ProjectionPlot.join_while c_tol fuel false segs').
      apply IH. lia.
Qed.

(** The loop of the source, unrolled once. *)
Lemma join_segments_unroll (c_tol : R) (segments : list (list vec)) :
  (1 < length segments)%nat ->
  ProjectionPlot._join_segments segments c_tol =
  st <- ProjectionPlot.join_body c_tol segments ;;
  if fst st then Ok (snd st)
  else ProjectionPlot._join_segments (snd st) c_tol.
Proof.
  intros Hlen. unfold ProjectionPlot._join_segments.
  destruct (length segments) as [| n] eqn:El; [lia |].
  cbn [ProjectionPlot.join_while]. rewrite El.
  replace (Nat.ltb 1 (S n)) with true by (symmetry; apply Nat.ltb_lt; lia).
  cbn [negb andb].
  destruct (ProjectionPlot.join_body c_tol segments) as [[aj segs'] |] eqn:Hb;
    [| reflexivity].
  cbn [bind fst snd]. pose proof (join_body_length _ _ _ _ Hb) as Hl.
  destruct aj.
  - destruct n; reflexivity.
  - assert (En : length segs' = n) by lia. rewrite En. reflexivity.
Qed.

Lemma join_segments_short (c_tol : R) (segments : list (list vec)) :
  (length segments <= 1)%nat ->
  ProjectionPlot._join_segments segments c_tol = Ok segments.
Proof.
  intros Hlen. unfold ProjectionPlot._join_segments.
  destruct segments as [| s [| s' rest]]; simpl in *; try reflexivity. lia.
Qed.

(** C5.  [_join_segments] compares only the two segments at the front of
    the list and leaves the loop the first time they do not merge.  On the
    three segments below the first two are 90 degrees apart, so the call
    returns at once with the list rotated by one place, although the tail
    of the second segment and the head of the third are the same point:
    the returned list has three segments and is not fully joined. *)
Theorem join_segments_stops_at_first_miss :
  ProjectionPlot._join_segments
    [[V3 1 0 0]; [V3 0 1 0; V3 0 0 (-1)]; [V3 0 0 (-1); V3 0 (-1) 0]]
    (radians 1)
  = Ok [[V3 0 1 0; V3 0 0 (-1)]; [V3 0 0 (-1); V3 0 (-1) 0]; [V3 1 0 0]] /\
  ~ fully_joined (radians 1)
      [[V3 0 1 0; V3 0 0 (-1)]; [V3 0 0 (-1); V3 0 (-1) 0]; [V3 1 0 0]].
Proof.
  assert (Ux : is_unit (V3 1 0 0)) by (unfold is_unit, dot; simpl; ring).
  assert (Uy : is_unit (V3 0 1 0)) by (unfold is_unit, dot; simpl; ring).
  assert (Uz : is_unit (V3 0 0 (-1))) by (unfold is_unit, dot; simpl; ring).
  assert (Hxy : ProjectionPlot.close (radians 1) (V3 1 0 0) (V3 0 1 0) = false).
  { apply close_orthogonal; try assumption. unfold dot; simpl; ring. }
  assert (Hxz : ProjectionPlot.close (radians 1) (V3 1 0 0) (V3 0 0 (-1)) = false).
  { apply close_orthogonal; try assumption. unfold dot; simpl; ring. }
  split.
  - rewrite join_segments_unroll by (simpl; lia).
    unfold ProjectionPlot.join_body, ProjectionPlot.first, ProjectionPlot.last.
    cbn [rev app bind]. rewrite Hxy, Hxz. reflexivity.
  - intros H.
    apply (H 0%nat 1%nat [V3 0 1 0; V3 0 0 (-1)] [V3 0 0 (-1); V3 0 (-1) 0]);
      [lia | reflexivity | reflexivity |].
    exists (V3 0 0 (-1)), (V3 0 0 (-1)). split; [right; reflexivity |].
    split; [left; reflexivity |].
    apply close_same; [exact Uz |]. pose proof PI_RGT_0. unfold radians. lra.
Qed.

(** With exactly two segments the four tests cover every pair of ends, so
    the result is a single segment or a fully joined pair. *)
Lemma join_two_segments (c_tol : R) (s1 s2 : list vec) (out : list (list vec)) :
  ProjectionPlot._join_segments [s1; s2] c_tol = Ok out ->
  length out = 1%nat \/ (out = [s2; s1] /\ forall p q, endpoint s1 p -> endpoint s2 q ->
                                         ProjectionPlot.close c_tol p q = false).
Proof.
  rewrite join_segments_unroll by (simpl; lia).
  unfold ProjectionPlot.join_body.
  destruct (ProjectionPlot.last s1) as [s_last |] eqn:E1; try discriminate.
  destruct (ProjectionPlot.first s2) as [b_first |] eqn:E2; try discriminate.
  cbn [bind].
  destruct (ProjectionPlot.close c_tol s_last b_first) eqn:C1.
  { cbn [bind fst snd app]. rewrite join_segments_short by (simpl; lia).
    intros E. injection E as <-. left. reflexivity. }
  destruct (ProjectionPlot.first s1) as [s_first |] eqn:E3; try discriminate.
  destruct (ProjectionPlot.last s2) as [b_last |] eqn:E4; try discriminate.
  cbn [bind].
  destruct (ProjectionPlot.close c_tol s_first b_last) eqn:C2.
  { cbn [bind fst snd app]. rewrite join_segments_short by (simpl; lia).
    intros E. injection E as <-. left. reflexivity. }
  destruct (ProjectionPlot.close c_tol s_last b_last) eqn:C3.
  { cbn [bind fst snd app]. rewrite join_segments_short by (simpl; lia).
    intros E. injection E as <-. left. reflexivity. }
  destruct (ProjectionPlot.close c_tol s_first b_first) eqn:C4.
  { cbn [bind fst snd app]. rewrite join_segments_short by (simpl; lia).
    intros E. injection E as <-. left. reflexivity. }
  cbn [bind fst snd app]. intros E. injection E as <-. right. split; [reflexivity |].
  intros p q [Hp | Hp] [Hq | Hq]; congruence.
Qed.

(** * Further properties of the code *)

(** ** Clipping a line to the visible region *)

Lemma clip_loop_concat (z_tol : R) (data : list vec) :
  forall current results,
    concat (ProjectionPlot.clip_loop z_tol data current results) =
    concat results ++ current ++ filter (inside z_tol) data.
Proof.
  induction data as [| p rest IH]; intros current results; simpl.
  - destruct current as [| c cs]; simpl.
    + rewrite app_nil_r. reflexivity.
    + rewrite concat_app. simpl. rewrite !app_nil_r. reflexivity.
  - unfold inside at 1. destruct (Rltb (vz p) z_tol).
    + rewrite IH, <- app_assoc. reflexivity.
    + destruct current as [| c cs]; simpl.
      * rewrite IH. reflexivity.
      * rewrite IH, concat_app. simpl. rewrite !app_nil_r, <- app_assoc.
        reflexivity.
Qed.

Lemma clip_loop_visible (z_tol : R) (data : list vec) :
  forall current results,
    Forall (visible_segment z_tol) results ->
    Forall (fun p => vz p < z_tol) current ->
    Forall (visible_segment z_tol)
           (ProjectionPlot.clip_loop z_tol data current results).
Proof.
  induction data as [| p rest IH]; intros current results Hres Hcur; simpl.
  - destruct current as [| c cs]; simpl; [exact Hres |].
    apply Forall_app. split; [exact Hres |]. constructor; [| constructor].
    split; [discriminate | exact Hcur].
  - unfold Rltb. destruct (Rlt_dec (vz p) z_tol) as [Hin | Hout].
    + apply IH; [exact Hres |]. apply Forall_app. split; [exact Hcur |].
      constructor; [exact Hin | constructor].
    + destruct current as [| c cs]; simpl.
      * apply IH; [exact Hres | constructor].
      * apply IH; [| constructor]. apply Forall_app. split; [exact Hres |].
        constructor; [| constructor]. split; [discriminate | exact Hcur].
Qed.

(** X1.  [_clip_lines] keeps exactly the points with [z < z_tol], in their
    order, and cuts them into segments none of which is empty. *)
Theorem clip_lines_keeps_inside_points (data : list vec) (z_tol : R) :
  concat (ProjectionPlot._clip_lines data z_tol) = filter (inside z_tol) data /\
  Forall (visible_segment z_tol) (ProjectionPlot._clip_lines data z_tol).
Proof.
  unfold ProjectionPlot._clip_lines. split.
  - rewrite clip_loop_concat. reflexivity.
  - apply clip_loop_visible; constructor.
Qed.

Lemma clip_loop_all_inside (z_tol : R) (data : list vec) :
  forall current results,
    Forall (fun p => vz p < z_tol) data ->
    current ++ data <> [] ->
    ProjectionPlot.clip_loop z_tol data current results =
    results ++ [current ++ data].
Proof.
  induction data as [| p rest IH]; intros current results Hall Hne; simpl.
  - rewrite app_nil_r in *. destruct current; [contradiction | reflexivity].
  - inversion Hall as [| p' l' Hp Hrest]; subst.
    rewrite Rltb_true by exact Hp. rewrite IH.
    + rewrite <- app_assoc. reflexivity.
    + exact Hrest.
    + destruct current; discriminate.
Qed.

Lemma clip_loop_all_outside (z_tol : R) (data : list vec) :
  forall results,
    Forall (fun p => z_tol <= vz p) data ->
    ProjectionPlot.clip_loop z_tol data [] results = results.
Proof.
  induction data as [| p rest IH]; intros results Hall; simpl; [reflexivity |].
  inversion Hall as [| p' l' Hp Hrest]; subst.
  rewrite Rltb_false by exact Hp. apply IH. exact Hrest.
Qed.

(** X2.  A non-empty line that lies wholly inside the visible region comes
    back as one segment, the line itself; a line wholly outside gives no
    segment at all. *)
Theorem clip_lines_whole_line (data : list vec) (z_tol : R) :
  (data <> [] -> Forall (fun p => vz p < z_tol) data ->
   ProjectionPlot._clip_lines data z_tol = [data]) /\
  (Forall (fun p => z_tol <= vz p) data ->
   ProjectionPlot._clip_lines data z_tol = []).
Proof.
  unfold ProjectionPlot._clip_lines. split.
  - intros Hne Hall. rewrite clip_loop_all_inside; auto.
  - intros Hall. apply clip_loop_all_outside. exact Hall.
Qed.

Lemma clip_lines_whole_line_witness :
  ([V3 1 0 0; V3 0 0 (-1)] <> [] /\
   Forall (fun p => vz p < 1 / 10) [V3 1 0 0; V3 0 0 (-1)] /\
   ProjectionPlot._clip_lines [V3 1 0 0; V3 0 0 (-1)] (1 / 10)
     = [[V3 1 0 0; V3 0 0 (-1)]]) /\
  (Forall (fun p => 1 / 10 <= vz p) [V3 0 0 1] /\
   ProjectionPlot._clip_lines [V3 0 0 1] (1 / 10) = []).
Proof.
  assert (H1 : [V3 1 0 0; V3 0 0 (-1)] <> []) by discriminate.
  assert (H2 : Forall (fun p => vz p < 1 / 10) [V3 1 0 0; V3 0 0 (-1)]).
  { repeat constructor; simpl; lra. }
  assert (H3 : Forall (fun p => 1 / 10 <= vz p) [V3 0 0 1]).
  { repeat constructor; simpl; lra. }
  split.
  - split; [exact H1 |]. split; [exact H2 |].
    exact (proj1 (clip_lines_whole_line [V3 1 0 0; V3 0 0 (-1)] (1 / 10)) H1 H2).
  - split; [exact H3 |].
    exact (proj2 (clip_lines_whole_line [V3 0 0 1] (1 / 10)) H3).
Defined.

(** ** Joining keeps the points *)

Lemma first_nonempty (s : list vec) : s <> [] -> exists p, ProjectionPlot.first s = Ok p.
Proof. destruct s as [| p t]; [contradiction | intros _; exists p; reflexivity]. Qed.

Lemma last_nonempty (s : list vec) : s <> [] -> exists p, ProjectionPlot.last s = Ok p.
Proof.
  intros Hne. unfold ProjectionPlot.last. destruct (rev s) as [| p t] eqn:E.
  - apply (f_equal (@rev vec)) in E. rewrite rev_involutive in E. contradiction.
  - exists p. reflexivity.
Qed.

Lemma concat_snoc_perm (rest : list (list vec)) (m s1 s2 : list vec) :
  Permutation m (s1 ++ s2) ->
  Permutation (concat (rest ++ [m])) (concat (s1 :: s2 :: rest)).
Proof.
  intros Hm. rewrite concat_app. simpl. rewrite app_nil_r.
  rewrite app_assoc. etransitivity; [apply Permutation_app_comm |].
  apply Permutation_app_tail. exact Hm.
Qed.

Lemma join_body_nonempty (c_tol : R) (s1 s2 : list vec) (rest : list (list vec)) :
  s1 <> [] -> s2 <> [] -> Forall (fun s => s <> []) rest ->
  exists all_joined segments',
    ProjectionPlot.join_body c_tol (s1 :: s2 :: rest) = Ok (all_joined, segments') /\
    Permutation (concat segments') (concat (s1 :: s2 :: rest)) /\
    Forall (fun s => s <> []) segments' /\
    segments' <> [].
Proof.
  intros H1 H2 Hrest. unfold ProjectionPlot.join_body.
  destruct (last_nonempty s1 H1) as [s_last ->].
  destruct (first_nonempty s2 H2) as [b_first ->].
  destruct (first_nonempty s1 H1) as [s_first ->].
  destruct (last_nonempty s2 H2) as [b_last ->].
  cbn [bind].
  assert (Hsnoc : forall m, m <> [] -> Forall (fun s : list vec => s <> []) (rest ++ [m])).
  { intros m Hm. apply Forall_app. split; [exact Hrest |]. repeat constructor. exact Hm. }
  assert (Happ : forall a b : list vec, a <> [] -> a ++ b <> []).
  { intros a b Ha E. apply app_eq_nil in E. destruct E. contradiction. }
  assert (Hne : forall m, rest ++ [m] <> []).
  { intros m E. apply app_eq_nil in E. destruct E. discriminate. }
  destruct (ProjectionPlot.close c_tol s_last b_first).
  { do 2 eexists. split; [reflexivity |]. split; [| split; auto].
    apply concat_snoc_perm. reflexivity. }
  destruct (ProjectionPlot.close c_tol s_first b_last).
  { do 2 eexists. split; [reflexivity |]. split; [| split; auto].
    apply concat_snoc_perm. apply Permutation_app_comm. }
  destruct (ProjectionPlot.close c_tol s_last b_last).
  { do 2 eexists. split; [reflexivity |]. split; [| split; auto].
    apply concat_snoc_perm. apply Permutation_app_head.
    symmetry. apply Permutation_rev. }
  destruct (ProjectionPlot.close c_tol s_first b_first).
  { do 2 eexists. split; [reflexivity |]. split; [| split; auto].
    apply concat_snoc_perm. etransitivity; [apply Permutation_app_comm |].
    apply Permutation_app_tail. symmetry. apply Permutation_rev. }
  do 2 eexists. split; [reflexivity |]. split; [| split; [| discriminate]].
  - simpl. rewrite concat_app. simpl. rewrite app_nil_r, app_assoc.
    apply Permutation_app_comm.
  - constructor; [exact H2 |]. apply Hsnoc. exact H1.
Qed.

Lemma join_while_nonempty (c_tol : R) (fuel : nat) :
  forall (all_joined : bool) (segments : list (list vec)),
    Forall (fun s => s <> []) segments ->
    exists out,
      ProjectionPlot.join_while c_tol fuel all_joined segments = Ok out /\
      Permutation (concat out) (concat segments) /\
      Forall (fun s => s <> []) out /\
      (length out <= length segments)%nat /\
      (segments <> [] -> out <> []).
Proof.
  induction fuel as [| fuel IH]; intros all_joined segments Hall.
  - exists segments. split; [| auto].
    simpl. destruct (negb all_joined && Nat.ltb 1 (length segments)); reflexivity.
  - cbn [ProjectionPlot.join_while].
    destruct (negb all_joined && Nat.ltb 1 (length segments)) eqn:Hc.
    2:{ exists segments. auto. }
    apply andb_prop in Hc. destruct Hc as [_ Hlen]. apply Nat.ltb_lt in Hlen.
    destruct segments as [| s1 [| s2 rest]]; simpl in Hlen; try lia.
    inversion Hall as [| ? ? H1 Hall']; subst.
    inversion Hall' as [| ? ? H2 Hrest]; subst.
    destruct (join_body_nonempty c_tol s1 s2 rest H1 H2 Hrest)
      as [aj [segs' [Hb [Hperm [Hne Hnn]]]]].
    rewrite Hb. cbn [bind fst snd].
    destruct (IH aj segs' Hne) as [out [Ho [Hp [Hn [Hl Hnil]]]]].
    exists out. split; [exact Ho |]. split; [etransitivity; eassumption |].
    split; [exact Hn |]. split.
    + pose proof (join_body_length _ _ _ _ Hb) as Hbl.
      destruct aj; simpl in *; lia.
    + intros _. apply Hnil. exact Hnn.
Qed.

(** X3.  When no segment is empty, [_join_segments] returns normally; the
    segments it returns hold the same points as the input (merged and
    possibly reversed, none lost or duplicated), none of them is empty,
    they are no more numerous, and a non-empty input gives a non-empty
    result. *)
Theorem join_segments_keeps_points (segments : list (list vec)) (c_tol : R) :
  Forall (fun s => s <> []) segments ->
  exists out,
    ProjectionPlot._join_segments segments c_tol = Ok out /\
    Permutation (concat out) (concat segments) /\
    Forall (fun s => s <> []) out /\
    (length out <= length segments)%nat /\
    (segments <> [] -> out <> []).
Proof.
  intros Hall. unfold ProjectionPlot._join_segments.
  apply join_while_nonempty. exact Hall.
Qed.

Lemma join_segments_keeps_points_witness :
  Forall (fun s : list vec => s <> []) [[V3 1 0 0]; [V3 0 1 0; V3 0 0 (-1)]] /\
  exists out,
    ProjectionPlot._join_segments [[V3 1 0 0]; [V3 0 1 0; V3 0 0 (-1)]] (radians 1)
      = Ok out /\
    Permutation (concat out) (concat [[V3 1 0 0]; [V3 0 1 0; V3 0 0 (-1)]]) /\
    Forall (fun s => s <> []) out /\
    (length out <= length [[V3 1 0 0]; [V3 0 1 0; V3 0 0 (-1)]])%nat /\
    ([[V3 1 0 0]; [V3 0 1 0; V3 0 0 (-1)]] <> [] -> out <> []).
Proof.
  assert (H : Forall (fun s : list vec => s <> [])
                     [[V3 1 0 0]; [V3 0 1 0; V3 0 0 (-1)]]).
  { repeat constructor; discriminate. }
  split; [exact H |].
  exact (join_segments_keeps_points [[V3 1 0 0]; [V3 0 1 0; V3 0 0 (-1)]]
           (radians 1) H).
Defined.

(** X4.  With two or more segments, an empty segment in first or second
    place makes [_join_segments] raise [IndexError]. *)
Theorem join_segments_empty_segment (s1 s2 : list vec) (rest : list (list vec))
        (c_tol : R) :
  s1 = [] \/ s2 = [] ->
  ProjectionPlot._join_segments (s1 :: s2 :: rest) c_tol = Raise IndexError.
Proof.
  intros H. rewrite join_segments_unroll by (simpl; lia).
  unfold ProjectionPlot.join_body. destruct H as [-> | ->].
  - reflexivity.
  - unfold ProjectionPlot.last at 1. destruct (rev s1); reflexivity.
Qed.

Lemma join_segments_empty_segment_witness :
  ([V3 1 0 0] = [] \/ @nil vec = []) /\
  ProjectionPlot._join_segments [[V3 1 0 0]; []; [V3 0 1 0]] (radians 1)
    = Raise IndexError.
Proof.
  assert (H : [V3 1 0 0] = [] \/ @nil vec = []) by (right; reflexivity).
  split; [exact H |].
  exact (join_segments_empty_segment [V3 1 0 0] [] [[V3 0 1 0]] (radians 1) H).
Defined.

(** X5.  As [as_lines] uses them: joining the segments of a clipped line
    never fails, and the joined segments hold exactly the points of the
    line with [z < z_tol]. *)
Theorem join_after_clip (data : list vec) (z_tol c_tol : R) :
  exists out,
    ProjectionPlot._join_segments (ProjectionPlot._clip_lines data z_tol) c_tol
      = Ok out /\
    Permutation (concat out) (filter (inside z_tol) data) /\
    Forall (fun s => s <> []) out.
Proof.
  assert (Hc : concat (ProjectionPlot._clip_lines data z_tol)
               = filter (inside z_tol) data).
  { unfold ProjectionPlot._clip_lines. rewrite clip_loop_concat. reflexivity. }
  assert (Hv : Forall (visible_segment z_tol) (ProjectionPlot._clip_lines data z_tol)).
  { unfold ProjectionPlot._clip_lines. apply clip_loop_visible; constructor. }
  assert (Hne : Forall (fun s : list vec => s <> [])
                       (ProjectionPlot._clip_lines data z_tol)).
  { revert Hv. apply Forall_impl. intros s [Hs _]. exact Hs. }
  destruct (join_while_nonempty c_tol
              (length (ProjectionPlot._clip_lines data z_tol)) false _ Hne)
    as [out [Ho [Hp [Hn _]]]].
  exists out. split; [exact Ho |]. split; [| exact Hn].
  rewrite <- Hc. exact Hp.
Qed.

(** ** Attitudes *)

Lemma unit_components_bounded (v : vec) :
  is_unit v -> -1 <= vz v <= 1.
Proof.
  destruct v as [x y z]. unfold is_unit, dot; simpl. intros H. split; nra.
Qed.

(** X6.  On unit vectors the batched conversion [VectorSet.attitude]
    (through [sphere_line]) gives, row by row, the same trend and plunge
    as [Vector.attitude]. *)
Theorem sphere_line_agrees_with_attitude (self : list vec) :
  Forall is_unit self ->
  VectorSet_attitude self = map Vector.attitude self.
Proof.
  intros Hall. unfold VectorSet_attitude, sphere_line.
  apply map_ext_in. intros v Hin. rewrite Forall_forall in Hall.
  pose proof (Hall v Hin) as Hu.
  unfold sphere_line_row, Vector.attitude.
  rewrite (unit_length v Hu), vdiv_1.
  rewrite clip_inside by (apply unit_components_bounded; exact Hu).
  destruct (Rgtb (vz v) 0).
  - replace (-1 * vx v) with (- vx v) by ring.
    replace (-1 * vy v) with (- vy v) by ring. reflexivity.
  - rewrite !Rmult_1_l. reflexivity.
Qed.

Lemma sphere_line_agrees_with_attitude_witness :
  Forall is_unit [V3 0 0 (-1); V3 1 0 0] /\
  VectorSet_attitude [V3 0 0 (-1); V3 1 0 0]
  = map Vector.attitude [V3 0 0 (-1); V3 1 0 0].
Proof.
  assert (H : Forall is_unit [V3 0 0 (-1); V3 1 0 0]).
  { repeat constructor; unfold is_unit, dot; simpl; ring. }
  split; [exact H |].
  exact (sphere_line_agrees_with_attitude [V3 0 0 (-1); V3 1 0 0] H).
Defined.

Lemma length_vneg (v : vec) : Vector.length (vneg v) = Vector.length v.
Proof. unfold Vector.length. rewrite dot_vneg. reflexivity. Qed.

Lemma length_pos (v : vec) : 0 < dot v v -> 0 < Vector.length v.
Proof. intros H. apply sqrt_lt_R0. exact H. Qed.

Lemma attitude_vneg (v : vec) :
  vz v <> 0 ->
  Vector.attitude (vneg v) = Vector.attitude v.
Proof.
  intros Hz.
  assert (Hpos : 0 < dot v v).
  { destruct v as [x y z]. unfold dot; simpl in *. nra. }
  pose proof (length_pos v Hpos) as HL.
  assert (Hinv : 0 < / Vector.length v) by (apply Rinv_0_lt_compat; exact HL).
  unfold Vector.attitude. rewrite length_vneg.
  set (L := Vector.length v) in *.
  destruct v as [x y z]. unfold vneg, vdiv; simpl in *.
  replace (- z / L) with (- (z / L)) by (unfold Rdiv; ring).
  rewrite Rabs_Ropp. unfold Rgtb, Rltb.
  assert (Hq : z / L <> 0).
  { unfold Rdiv. intros E. apply Rmult_integral in E. destruct E; lra. }
  destruct (Rlt_dec 0 (- (z / L))) as [A | A];
    destruct (Rlt_dec 0 (z / L)) as [B | B]; try lra.
  - replace (- x / L) with (- (x / L)) by (unfold Rdiv; ring).
    replace (- y / L) with (- (y / L)) by (unfold Rdiv; ring).
    rewrite !Ropp_involutive. reflexivity.
  - replace (- x / L) with (- (x / L)) by (unfold Rdiv; ring).
    replace (- y / L) with (- (y / L)) by (unfold Rdiv; ring).
    reflexivity.
Qed.

(** X7.  A vector that is not horizontal and its antipode have the same
    attitude: the conversion always reads the downward-pointing end. *)
Theorem attitude_antipode (v : vec) :
  vz v <> 0 ->
  Vector.attitude (vneg v) = Vector.attitude v.
Proof. exact (attitude_vneg v). Qed.

Lemma attitude_antipode_witness :
  vz (V3 1 2 2) <> 0 /\
  Vector.attitude (vneg (V3 1 2 2)) = Vector.attitude (V3 1 2 2).
Proof.
  assert (H : vz (V3 1 2 2) <> 0) by (simpl; lra).
  split; [exact H |]. exact (attitude_antipode (V3 1 2 2) H).
Defined.

Lemma py_mod_range (a b : R) : 0 < b -> 0 <= py_mod a b < b.
Proof.
  intros Hb. unfold py_mod.
  destruct (base_Int_part (a / b)) as [Hle Hgt].
  assert (E : a = b * (a / b)) by (field; lra).
  set (q := a / b) in *. set (k := IZR (Int_part q)) in *.
  split; nra.
Qed.

Lemma asin_nonneg (x : R) : 0 <= x <= 1 -> 0 <= asin x <= PI / 2.
Proof.
  intros Hx. destruct (asin_bound x) as [Hlo Hhi]. split; [| exact Hhi].
  destruct (Rle_dec 0 (asin x)) as [H | H]; [exact H |].
  exfalso. pose proof PI_RGT_0 as Hpi.
  assert (Hs : sin (asin x) < 0) by (apply sin_lt_0_var; lra).
  rewrite sin_asin in Hs by lra. lra.
Qed.

Lemma normalized_z_bounded (v : vec) :
  0 < dot v v -> Rabs (vz (vdiv v (Vector.length v))) <= 1.
Proof.
  intros Hpos. pose proof (normalize_unit v Hpos) as Hu.
  fold (Vector.length v) in Hu.
  destruct (unit_components_bounded _ Hu) as [Hlo Hhi].
  apply Rabs_le. split; assumption.
Qed.

Lemma py_mod_within (a b : R) : 0 < b -> 0 <= py_mod a b <= b.
Proof. intros Hb. destruct (py_mod_range a b Hb). split; lra. Qed.

(** X8.  For every non-zero vector the attitude is a trend from 0 to 360
    and a plunge from 0 to 90.  (The trend never exceeds 360; in floating
    point the remainder modulo 360 of a tiny negative angle rounds to 360
    itself, so the bound is stated as closed.) *)
Theorem attitude_range (v : vec) :
  0 < dot v v ->
  0 <= fst (Vector.attitude v) <= 360 /\
  0 <= snd (Vector.attitude v) <= 90.
Proof.
  intros Hpos. unfold Vector.attitude.
  pose proof (normalized_z_bounded v Hpos) as Hz.
  set (n := vdiv v (Vector.length v)) in *.
  destruct (Rgtb (vz n) 0); simpl.
  - split; [apply py_mod_within; lra |].
    destruct (asin_nonneg (Rabs (vz n))) as [Hlo Hhi];
      [split; [apply Rabs_pos | exact Hz] |].
    pose proof PI_RGT_0 as Hpi. unfold degrees. split.
    + apply Rmult_le_pos; [exact Hlo |]. apply Rlt_le, Rdiv_lt_0_compat; lra.
    + replace 90 with (PI / 2 * (180 / PI)) by (field; lra).
      apply Rmult_le_compat_r; [apply Rlt_le, Rdiv_lt_0_compat; lra | exact Hhi].
  - split; [apply py_mod_within; lra |].
    destruct (asin_nonneg (Rabs (vz n))) as [Hlo Hhi];
      [split; [apply Rabs_pos | exact Hz] |].
    pose proof PI_RGT_0 as Hpi. unfold degrees. split.
    + apply Rmult_le_pos; [exact Hlo |]. apply Rlt_le, Rdiv_lt_0_compat; lra.
    + replace 90 with (PI / 2 * (180 / PI)) by (field; lra).
      apply Rmult_le_compat_r; [apply Rlt_le, Rdiv_lt_0_compat; lra | exact Hhi].
Qed.

Lemma attitude_range_witness :
  0 < dot (V3 1 2 2) (V3 1 2 2) /\
  0 <= fst (Vector.attitude (V3 1 2 2)) <= 360 /\
  0 <= snd (Vector.attitude (V3 1 2 2)) <= 90.
Proof.
  assert (H : 0 < dot (V3 1 2 2) (V3 1 2 2)) by (unfold dot; simpl; lra).
  split; [exact H |]. exact (attitude_range (V3 1 2 2) H).
Defined.

(** ** From an attitude back to the direction cosines *)

Lemma atan2_bounds (y x : R) : - PI < atan2 y x <= PI.
Proof.
  pose proof PI_RGT_0 as Hpi. unfold atan2, Rltb.
  destruct (atan_bound (y / x)) as [Hlo Hhi].
  destruct (Rlt_dec 0 x) as [Px | Px]; [lra |].
  destruct (Rlt_dec x 0) as [Nx | Nx].
  - assert (Hinv : / x < 0) by (apply Rinv_lt_0_compat; exact Nx).
    destruct (Rlt_dec y 0) as [Ny | Ny].
    + assert (Hq : 0 < y / x) by (unfold Rdiv; nra).
      assert (Ha : 0 < atan (y / x)) by (rewrite <- atan_0; apply atan_increasing; exact Hq).
      lra.
    + assert (Hq : y / x <= 0) by (unfold Rdiv; nra).
      assert (Ha : atan (y / x) <= 0).
      { destruct Hq as [Hq | Hq].
        - left. rewrite <- atan_0. apply atan_increasing. exact Hq.
        - rewrite Hq, atan_0. lra. }
      lra.
  - destruct (Rlt_dec 0 y); [lra |]. destruct (Rlt_dec y 0); lra.
Qed.

Lemma sqrt_one_plus_sq (u : R) : 0 < sqrt (1 + u²).
Proof. apply sqrt_lt_R0. unfold Rsqr. nra. Qed.

Lemma hypot_ratio (y x : R) :
  x <> 0 -> sqrt (y * y + x * x) = Rabs x * sqrt (1 + (y / x)²).
Proof.
  intros Hx. rewrite <- (sqrt_Rsqr_abs x), <- sqrt_mult.
  - f_equal. unfold Rsqr. field. exact Hx.
  - apply Rle_0_sqr.
  - unfold Rsqr. nra.
Qed.

(** The point (x, y) in polar form, with the angle [atan2 y x]. *)
Lemma atan2_polar_form (y x : R) :
  sqrt (y * y + x * x) * sin (atan2 y x) = y /\
  sqrt (y * y + x * x) * cos (atan2 y x) = x.
Proof.
  unfold atan2, Rltb.
  destruct (Rlt_dec 0 x) as [Px | Px].
  - rewrite hypot_ratio by lra. rewrite Rabs_right by lra.
    rewrite sin_atan, cos_atan. pose proof (sqrt_one_plus_sq (y / x)) as Hs.
    split; field; lra.
  - destruct (Rlt_dec x 0) as [Nx | Nx].
    + rewrite hypot_ratio by lra. rewrite Rabs_left by lra.
      pose proof (sqrt_one_plus_sq (y / x)) as Hs.
      destruct (Rlt_dec y 0) as [Ny | Ny].
      * rewrite sin_minus, cos_minus, sin_PI, cos_PI, sin_atan, cos_atan.
        split; field; lra.
      * rewrite sin_plus, cos_plus, sin_PI, cos_PI, sin_atan, cos_atan.
        split; field; lra.
    + assert (Hx : x = 0) by lra. subst x.
      replace (y * y + 0 * 0) with (y * y) by ring.
      destruct (Rlt_dec 0 y) as [Py | Py].
      * rewrite sqrt_square by lra. rewrite sin_PI2, cos_PI2. split; ring.
      * destruct (Rlt_dec y 0) as [Ny | Ny].
        -- replace (y * y) with (- y * - y) by ring.
           rewrite sqrt_square by lra.
           rewrite sin_neg, cos_neg, sin_PI2, cos_PI2. split; ring.
        -- assert (Hy : y = 0) by lra. subst y.
           rewrite Rmult_0_l, sqrt_0. split; ring.
Qed.

(** Reducing an angle of (-pi, pi] modulo 360 degrees does not change its
    sine and cosine. *)
Lemma trend_sin_cos (a : R) :
  - PI < a <= PI ->
  sin (radians (py_mod (degrees a) 360)) = sin a /\
  cos (radians (py_mod (degrees a) 360)) = cos a.
Proof.
  intros [Hlo Hhi]. pose proof PI_RGT_0 as Hpi.
  assert (Hd : degrees a = a * (180 / PI)) by reflexivity.
  assert (Hk : 0 < 180 / PI) by (apply Rdiv_lt_0_compat; lra).
  assert (Hpk : PI * (180 / PI) = 180) by (field; lra).
  destruct (Rle_dec 0 a) as [Pa | Na].
  - rewrite py_mod_small.
    + rewrite degrees_radians. split; reflexivity.
    + rewrite Hd. split; [apply Rmult_le_pos; lra |]. nra.
  - rewrite py_mod_negative.
    + replace (radians (degrees a + 360)) with (a + 2 * PI).
      * rewrite sin_plus, cos_plus, sin_2PI, cos_2PI. split; ring.
      * unfold radians, degrees. field. lra.
    + rewrite Hd. split; nra.
Qed.

Lemma from_attitude_lower (v : vec) :
  is_unit v -> vz v <= 0 ->
  Vector.from_attitude (fst (Vector.attitude v)) (snd (Vector.attitude v)) = v.
Proof.
  intros Hu Hz. unfold Vector.attitude.
  rewrite (unit_length v Hu), vdiv_1.
  unfold Rgtb. rewrite Rltb_false by exact Hz. cbn [fst snd].
  unfold Vector.from_attitude, dcos_line.
  destruct (unit_components_bounded v Hu) as [Hlo Hhi].
  rewrite Rabs_left1 by exact Hz. rewrite degrees_radians.
  destruct (trend_sin_cos (atan2 (vx v) (vy v)) (atan2_bounds _ _)) as [-> ->].
  rewrite sin_asin, cos_asin by lra.
  destruct (atan2_polar_form (vx v) (vy v)) as [Hs Hc].
  destruct v as [x y z]. unfold is_unit, dot in Hu. simpl in *.
  replace (1 - (- z)²) with (x * x + y * y) by (unfold Rsqr; nra).
  rewrite Hs, Hc. f_equal. ring.
Qed.

(** X9.  Converting a unit vector to its attitude and back gives the
    vector itself when it points down or is horizontal ([z <= 0]) and its
    antipode when it points up. *)
Theorem attitude_from_attitude_roundtrip (v : vec) :
  is_unit v ->
  Vector.from_attitude (fst (Vector.attitude v)) (snd (Vector.attitude v)) =
  if Rgtb (vz v) 0 then vneg v else v.
Proof.
  intros Hu. unfold Rgtb, Rltb. destruct (Rlt_dec 0 (vz v)) as [P | N].
  - rewrite <- attitude_vneg by lra.
    apply from_attitude_lower; [apply vneg_unit; exact Hu |].
    destruct v; simpl in *; lra.
  - apply from_attitude_lower; [exact Hu | lra].
Qed.

Lemma attitude_from_attitude_roundtrip_witness :
  is_unit (V3 (3 / 5) 0 (4 / 5)) /\
  Vector.from_attitude (fst (Vector.attitude (V3 (3 / 5) 0 (4 / 5))))
                       (snd (Vector.attitude (V3 (3 / 5) 0 (4 / 5)))) =
  if Rgtb (vz (V3 (3 / 5) 0 (4 / 5))) 0 then vneg (V3 (3 / 5) 0 (4 / 5))
  else V3 (3 / 5) 0 (4 / 5).
Proof.
  assert (H : is_unit (V3 (3 / 5) 0 (4 / 5))) by (unfold is_unit, dot; simpl; field).
  split; [exact H |].
  exact (attitude_from_attitude_roundtrip (V3 (3 / 5) 0 (4 / 5)) H).
Defined.

(** ** Rotation about a vector *)

Ltac rodrigues_entries :=
  unfold rodrigues, Vector.cross_product_matrix, Vector.projection_matrix, outer,
    madd, msub, mscale, mmul, mrow, mvec, transpose, col1, col2, col3, eye,
    vadd, vsub, vscale, cross, dot; simpl.

Lemma get_rotation_matrix_rodrigues (self : vec) (theta : R) :
  Vector.get_rotation_matrix self theta =
  rodrigues self (cos theta) (sin theta) (1 - cos theta).
Proof. reflexivity. Qed.

Lemma rodrigues_mul (self : vec) (a1 b1 c1 a2 b2 c2 : R) :
  mmul (rodrigues self a1 b1 c1) (rodrigues self a2 b2 c2) =
  rodrigues self (a1 * a2 - b1 * b2 * dot self self)
                 (a1 * b2 + b1 * a2)
                 (a1 * c2 + c1 * a2 + b1 * b2 + c1 * c2 * dot self self).
Proof. destruct self as [x y z]. rodrigues_entries. f_equal; f_equal; ring. Qed.

Lemma rodrigues_transpose (self : vec) (a b c : R) :
  transpose (rodrigues self a b c) = rodrigues self a (- b) c.
Proof. destruct self as [x y z]. rodrigues_entries. f_equal; f_equal; ring. Qed.

Lemma rodrigues_identity (self : vec) : rodrigues self 1 0 0 = eye.
Proof. destruct self as [x y z]. rodrigues_entries. f_equal; f_equal; ring. Qed.

(** Rodrigues' formula on a vector. *)
Lemma rodrigues_mvec (self v : vec) (a b c : R) :
  mvec (rodrigues self a b c) v =
  vadd (vadd (vscale a v) (vscale b (cross self v)))
       (vscale (c * dot self v) self).
Proof. destruct self as [x y z], v as [p q r]. rodrigues_entries. f_equal; ring. Qed.

Lemma rotation_matrix_mul (self : vec) (a b : R) :
  is_unit self ->
  mmul (Vector.get_rotation_matrix self a) (Vector.get_rotation_matrix self b)
  = Vector.get_rotation_matrix self (a + b).
Proof.
  intros Hu. rewrite !get_rotation_matrix_rodrigues, rodrigues_mul, Hu.
  rewrite cos_plus, sin_plus. f_equal; ring.
Qed.

(** X10.  Rotations about the same unit vector compose by adding their
    angles. *)
Theorem get_rotation_matrix_compose (self : vec) (a b : R) :
  is_unit self ->
  mmul (Vector.get_rotation_matrix self a) (Vector.get_rotation_matrix self b)
  = Vector.get_rotation_matrix self (a + b).
Proof. exact (rotation_matrix_mul self a b). Qed.

Lemma get_rotation_matrix_compose_witness :
  is_unit (V3 0 0 1) /\
  mmul (Vector.get_rotation_matrix (V3 0 0 1) (PI / 2))
       (Vector.get_rotation_matrix (V3 0 0 1) (PI / 3))
  = Vector.get_rotation_matrix (V3 0 0 1) (PI / 2 + PI / 3).
Proof.
  assert (H : is_unit (V3 0 0 1)) by (unfold is_unit, dot; simpl; ring).
  split; [exact H |].
  exact (get_rotation_matrix_compose (V3 0 0 1) (PI / 2) (PI / 3) H).
Defined.

Lemma rotation_matrix_zero (self : vec) : Vector.get_rotation_matrix self 0 = eye.
Proof.
  rewrite get_rotation_matrix_rodrigues, cos_0, sin_0.
  replace (1 - 1) with 0 by ring. apply rodrigues_identity.
Qed.

Lemma rotation_matrix_transpose (self : vec) (theta : R) :
  transpose (Vector.get_rotation_matrix self theta)
  = Vector.get_rotation_matrix self (- theta).
Proof.
  rewrite !get_rotation_matrix_rodrigues, rodrigues_transpose, cos_neg, sin_neg.
  reflexivity.
Qed.

Lemma rotation_matrix_orthonormal (self : vec) (theta : R) :
  is_unit self -> orthonormal (Vector.get_rotation_matrix self theta).
Proof.
  intros Hu. unfold orthonormal. rewrite rotation_matrix_transpose.
  rewrite !rotation_matrix_mul by exact Hu.
  replace (theta + - theta) with 0 by ring.
  replace (- theta + theta) with 0 by ring.
  split; apply rotation_matrix_zero.
Qed.

(** X11.  For a unit vector, [get_rotation_matrix] is an orthonormal matrix
    that leaves the vector itself in place; its transpose is the rotation
    by the opposite angle, and the angle 0 gives the identity. *)
Theorem get_rotation_matrix_is_rotation (self : vec) (theta : R) :
  is_unit self ->
  orthonormal (Vector.get_rotation_matrix self theta) /\
  mvec (Vector.get_rotation_matrix self theta) self = self /\
  transpose (Vector.get_rotation_matrix self theta)
    = Vector.get_rotation_matrix self (- theta) /\
  Vector.get_rotation_matrix self 0 = eye.
Proof.
  intros Hu. split; [apply rotation_matrix_orthonormal; exact Hu |].
  split; [| split; [apply rotation_matrix_transpose | apply rotation_matrix_zero]].
  rewrite get_rotation_matrix_rodrigues, rodrigues_mvec, Hu.
  destruct self as [x y z]. unfold vadd, vscale, cross; simpl. f_equal; ring.
Qed.

Lemma get_rotation_matrix_is_rotation_witness :
  is_unit (V3 (3 / 5) 0 (4 / 5)) /\
  orthonormal (Vector.get_rotation_matrix (V3 (3 / 5) 0 (4 / 5)) 1) /\
  mvec (Vector.get_rotation_matrix (V3 (3 / 5) 0 (4 / 5)) 1) (V3 (3 / 5) 0 (4 / 5))
    = V3 (3 / 5) 0 (4 / 5) /\
  transpose (Vector.get_rotation_matrix (V3 (3 / 5) 0 (4 / 5)) 1)
    = Vector.get_rotation_matrix (V3 (3 / 5) 0 (4 / 5)) (- (1)) /\
  Vector.get_rotation_matrix (V3 (3 / 5) 0 (4 / 5)) 0 = eye.
Proof.
  assert (H : is_unit (V3 (3 / 5) 0 (4 / 5))) by (unfold is_unit, dot; simpl; field).
  split; [exact H |].
  exact (get_rotation_matrix_is_rotation (V3 (3 / 5) 0 (4 / 5)) 1 H).
Defined.

(** X12.  The rotation turns a unit vector perpendicular to the unit axis
    by the angle [theta]: the image is [cos theta * v + sin theta * (self x v)],
    still perpendicular to the axis, and for [theta] in [0, pi] its angle
    with [v] is [theta]. *)
Theorem get_rotation_matrix_turns (self v : vec) (theta : R) :
  is_unit self -> is_unit v -> dot self v = 0 ->
  let w := mvec (Vector.get_rotation_matrix self theta) v in
  w = vadd (vscale (cos theta) v) (vscale (sin theta) (cross self v)) /\
  dot self w = 0 /\
  (0 <= theta <= PI -> Vector.angle_with_acos v w = theta).
Proof.
  intros Hs Hv Ho w.
  assert (Ew : w = vadd (vscale (cos theta) v) (vscale (sin theta) (cross self v))).
  { unfold w. rewrite get_rotation_matrix_rodrigues, rodrigues_mvec, Ho.
    destruct self as [x y z], v as [p q r].
    unfold vadd, vscale, cross; simpl. f_equal; ring. }
  assert (Hc : is_unit (cross self v)).
  { unfold is_unit in *. rewrite lagrange, Hs, Hv, Ho. ring. }
  assert (Hf : frame self v (cross self v)).
  { constructor; [exact Hv | exact Hc | exact Ho | apply dot_cross_l |].
    apply dot_cross_r. }
  destruct (circle_point_unit self v (cross self v) theta Hf) as [Hwu Hwo].
  rewrite <- Ew in Hwu, Hwo.
  split; [exact Ew |]. split; [exact Hwo |].
  intros Ht. apply angle_with_acos_unit; try assumption.
  rewrite Ew.
  replace (dot v (vadd (vscale (cos theta) v) (vscale (sin theta) (cross self v))))
    with (cos theta * dot v v + sin theta * dot v (cross self v))
    by (unfold dot, vadd, vscale; simpl; ring).
  rewrite dot_cross_r. unfold is_unit in Hv. rewrite Hv. ring.
Qed.

Lemma get_rotation_matrix_turns_witness :
  is_unit (V3 0 0 1) /\ is_unit (V3 1 0 0) /\ dot (V3 0 0 1) (V3 1 0 0) = 0 /\
  let w := mvec (Vector.get_rotation_matrix (V3 0 0 1) (PI / 2)) (V3 1 0 0) in
  w = vadd (vscale (cos (PI / 2)) (V3 1 0 0))
           (vscale (sin (PI / 2)) (cross (V3 0 0 1) (V3 1 0 0))) /\
  dot (V3 0 0 1) w = 0 /\
  (0 <= PI / 2 <= PI -> Vector.angle_with_acos (V3 1 0 0) w = PI / 2).
Proof.
  assert (H1 : is_unit (V3 0 0 1)) by (unfold is_unit, dot; simpl; ring).
  assert (H2 : is_unit (V3 1 0 0)) by (unfold is_unit, dot; simpl; ring).
  assert (H3 : dot (V3 0 0 1) (V3 1 0 0) = 0) by (unfold dot; simpl; ring).
  split; [exact H1 |]. split; [exact H2 |]. split; [exact H3 |].
  exact (get_rotation_matrix_turns (V3 0 0 1) (V3 1 0 0) (PI / 2) H1 H2 H3).
Defined.

(** ** Projection, rejection and cross-product matrices *)

Lemma projection_mvec (self v : vec) :
  mvec (Vector.projection_matrix self) v = vscale (dot self v) self.
Proof.
  destruct self as [x y z], v as [p q r].
  unfold Vector.projection_matrix, outer, mvec, vscale, dot; simpl. f_equal; ring.
Qed.

Lemma rejection_mvec (self v : vec) :
  mvec (Vector.rejection_matrix self) v = vsub v (vscale (dot self v) self).
Proof.
  destruct self as [x y z], v as [p q r].
  unfold Vector.rejection_matrix, Vector.projection_matrix, msub, outer, eye,
    mvec, vsub, vscale, dot; simpl. f_equal; ring.
Qed.

Lemma dot_vscale_r (a b : vec) (k : R) : dot a (vscale k b) = k * dot a b.
Proof. unfold dot, vscale; simpl. ring. Qed.

Lemma dot_vsub_r (a b c : vec) : dot a (vsub b c) = dot a b - dot a c.
Proof. unfold dot, vsub; simpl. ring. Qed.

(** X13.  For a unit vector, [projection_matrix] projects onto the vector
    and [rejection_matrix] onto the plane perpendicular to it: the two
    parts add up to the input, the rejected part is perpendicular to the
    vector, and applying either matrix twice changes nothing more. *)
Theorem projection_rejection_split (self v : vec) :
  is_unit self ->
  let p := mvec (Vector.projection_matrix self) v in
  let r := mvec (Vector.rejection_matrix self) v in
  p = vscale (dot self v) self /\
  vadd p r = v /\
  dot self r = 0 /\
  mvec (Vector.projection_matrix self) p = p /\
  mvec (Vector.rejection_matrix self) r = r /\
  mvec (Vector.projection_matrix self) r = V3 0 0 0.
Proof.
  intros Hu p r. unfold p, r. unfold is_unit in Hu.
  assert (Hr : dot self (mvec (Vector.rejection_matrix self) v) = 0).
  { rewrite rejection_mvec, dot_vsub_r, dot_vscale_r, Hu. ring. }
  split; [apply projection_mvec |]. split; [| split; [exact Hr |]].
  - rewrite projection_mvec, rejection_mvec.
    destruct self as [x y z], v as [a b c].
    unfold vadd, vsub, vscale, dot; simpl. f_equal; ring.
  - split; [| split].
    + rewrite !projection_mvec, dot_vscale_r, Hu.
      destruct self as [x y z]. unfold vscale; simpl. f_equal; ring.
    + rewrite (rejection_mvec self (mvec (Vector.rejection_matrix self) v)), Hr.
      destruct (mvec (Vector.rejection_matrix self) v) as [a b c], self as [x y z].
      unfold vsub, vscale; simpl. f_equal; ring.
    + rewrite (projection_mvec self (mvec (Vector.rejection_matrix self) v)), Hr.
      destruct self as [x y z]. unfold vscale; simpl. f_equal; ring.
Qed.

Lemma projection_rejection_split_witness :
  is_unit (V3 0 0 1) /\
  let p := mvec (Vector.projection_matrix (V3 0 0 1)) (V3 1 2 3) in
  let r := mvec (Vector.rejection_matrix (V3 0 0 1)) (V3 1 2 3) in
  p = vscale (dot (V3 0 0 1) (V3 1 2 3)) (V3 0 0 1) /\
  vadd p r = V3 1 2 3 /\
  dot (V3 0 0 1) r = 0 /\
  mvec (Vector.projection_matrix (V3 0 0 1)) p = p /\
  mvec (Vector.rejection_matrix (V3 0 0 1)) r = r /\
  mvec (Vector.projection_matrix (V3 0 0 1)) r = V3 0 0 0.
Proof.
  assert (H : is_unit (V3 0 0 1)) by (unfold is_unit, dot; simpl; ring).
  split; [exact H |].
  exact (projection_rejection_split (V3 0 0 1) (V3 1 2 3) H).
Defined.

(** X14.  [cross_product_matrix] is the matrix of the cross product:
    applied to a vector it gives [self x v]; it is skew-symmetric and sends
    the vector itself to zero. *)
Theorem cross_product_matrix_is_cross (self v : vec) :
  mvec (Vector.cross_product_matrix self) v = Vector.cross_with self v /\
  transpose (Vector.cross_product_matrix self)
    = mscale (-1) (Vector.cross_product_matrix self) /\
  mvec (Vector.cross_product_matrix self) self = V3 0 0 0.
Proof.
  destruct self as [x y z], v as [p q r].
  unfold Vector.cross_product_matrix, Vector.cross_with, cross, mvec, transpose,
    mscale, vscale, col1, col2, col3, dot; simpl.
  split; [f_equal; ring |]. split; [f_equal; f_equal; ring | f_equal; ring].
Qed.

(** ** Normalised cross products *)

Lemma normalized_cross_nonzero (a b : vec) :
  0 < dot (cross a b) (cross a b) ->
  normalized_cross a b = vdiv (cross a b) (sqrt (dot (cross a b) (cross a b))).
Proof.
  intros H. unfold normalized_cross, Rgtb.
  rewrite Rltb_true by (apply sqrt_lt_R0; exact H). reflexivity.
Qed.

Lemma normalized_cross_zero (a b : vec) :
  dot (cross a b) (cross a b) = 0 ->
  normalized_cross a b = V3 0 0 0.
Proof.
  intros H. unfold normalized_cross, Rgtb. rewrite H, sqrt_0.
  rewrite Rltb_false by lra.
  destruct (sum_squares_zero (vx (cross a b)) (vy (cross a b)) (vz (cross a b)))
    as [Hx [Hy Hz]]; [exact H |].
  destruct (cross a b) as [p q r]. simpl in *. subst. reflexivity.
Qed.

(** X15.  [normalized_cross] never fails: for parallel operands ([b] a
    multiple of [a]) it returns the zero vector as it is, and whenever the
    cross product is not zero it returns a unit vector perpendicular to
    both operands. *)
Theorem normalized_cross_cases (a b : vec) (k : R) :
  normalized_cross a (vscale k a) = V3 0 0 0 /\
  (cross a b <> V3 0 0 0 ->
   is_unit (normalized_cross a b) /\
   dot a (normalized_cross a b) = 0 /\
   dot b (normalized_cross a b) = 0).
Proof.
  split.
  - apply normalized_cross_zero.
    destruct a as [x y z]. unfold cross, vscale, dot; simpl. ring.
  - intros Hne.
    assert (Hpos : 0 < dot (cross a b) (cross a b)).
    { pose proof (dot_self_nonneg (cross a b)) as Hge.
      destruct (Req_dec (dot (cross a b) (cross a b)) 0) as [E | E]; [| lra].
      exfalso. apply Hne.
      destruct (sum_squares_zero _ _ _ E) as [Hx [Hy Hz]].
      destruct (cross a b) as [p q r]. simpl in *. subst. reflexivity. }
    rewrite normalized_cross_nonzero by exact Hpos.
    split; [apply normalize_unit; exact Hpos |].
    rewrite !dot_vdiv_r, dot_cross_l, dot_cross_r. unfold Rdiv. split; ring.
Qed.

Lemma normalized_cross_cases_witness :
  cross (V3 1 0 0) (V3 0 1 0) <> V3 0 0 0 /\
  normalized_cross (V3 1 2 2) (vscale 3 (V3 1 2 2)) = V3 0 0 0 /\
  is_unit (normalized_cross (V3 1 0 0) (V3 0 1 0)) /\
  dot (V3 1 0 0) (normalized_cross (V3 1 0 0) (V3 0 1 0)) = 0 /\
  dot (V3 0 1 0) (normalized_cross (V3 1 0 0) (V3 0 1 0)) = 0.
Proof.
  assert (H : cross (V3 1 0 0) (V3 0 1 0) <> V3 0 0 0).
  { unfold cross; simpl. intros E. injection E; intros; lra. }
  split; [exact H |]. split.
  - exact (proj1 (normalized_cross_cases (V3 1 2 2) (V3 1 2 2) 3)).
  - exact (proj2 (normalized_cross_cases (V3 1 0 0) (V3 0 1 0) 0) H).
Defined.

Lemma cross_swap (a b : vec) : cross b a = vneg (cross a b).
Proof. unfold cross, vneg; simpl. f_equal; ring. Qed.

Lemma normalized_cross_swap (a b : vec) :
  normalized_cross b a = vneg (normalized_cross a b).
Proof.
  unfold normalized_cross. rewrite cross_swap, dot_vneg.
  destruct (Rgtb (sqrt (dot (cross a b) (cross a b))) 0); [| reflexivity].
  destruct (cross a b) as [p q r]. unfold vdiv, vneg; simpl.
  f_equal; unfold Rdiv; ring.
Qed.

Lemma vneg_involutive (a : vec) : vneg (vneg a) = a.
Proof. destruct a. unfold vneg; simpl. f_equal; ring. Qed.

Lemma oriented_cross_swap (a b : vec) :
  vz (normalized_cross a b) <> 0 ->
  oriented_cross b a = oriented_cross a b.
Proof.
  intros Hz. unfold oriented_cross. rewrite normalized_cross_swap.
  assert (E : vz (vneg (normalized_cross a b)) = - vz (normalized_cross a b))
    by reflexivity.
  rewrite E. unfold Rltb.
  destruct (Rlt_dec (- vz (normalized_cross a b)) 0) as [A | A];
    destruct (Rlt_dec (vz (normalized_cross a b)) 0) as [B | B]; try lra.
  - reflexivity.
  - apply vneg_involutive.
Qed.

(** X16.  [Vector.normalized_cross_with] changes sign when its operands
    are swapped, while the row [VectorSet.normalized_cross_with] stores for
    a pair does not depend on the order of the pair, as long as the
    normalised cross product is not horizontal; every call returns one row
    per pair. *)
Theorem normalized_cross_with_operand_order (a b : vec) (self other : list vec) :
  Vector.normalized_cross_with b a = vneg (Vector.normalized_cross_with a b) /\
  (vz (normalized_cross a b) <> 0 ->
   VectorSet.normalized_cross_with [b] [a]
   = VectorSet.normalized_cross_with [a] [b]) /\
  length (VectorSet.normalized_cross_with self other)
  = (length self * length other)%nat.
Proof.
  split; [apply normalized_cross_swap |]. split.
  - intros Hz. rewrite !vectorset_rows_unfold. simpl.
    rewrite (oriented_cross_swap a b Hz). reflexivity.
  - rewrite vectorset_rows_unfold.
    induction self as [| s rest IH]; simpl; [reflexivity |].
    rewrite length_app, length_map, IH. reflexivity.
Qed.

Lemma normalized_cross_with_operand_order_witness :
  vz (normalized_cross (V3 1 0 0) (V3 0 1 0)) <> 0 /\
  Vector.normalized_cross_with (V3 0 1 0) (V3 1 0 0)
    = vneg (Vector.normalized_cross_with (V3 1 0 0) (V3 0 1 0)) /\
  VectorSet.normalized_cross_with [V3 0 1 0] [V3 1 0 0]
    = VectorSet.normalized_cross_with [V3 1 0 0] [V3 0 1 0] /\
  length (VectorSet.normalized_cross_with [V3 1 0 0] [V3 0 1 0; V3 0 0 1])
    = (length [V3 1 0 0] * length [V3 0 1 0; V3 0 0 1])%nat.
Proof.
  assert (H : vz (normalized_cross (V3 1 0 0) (V3 0 1 0)) <> 0).
  { unfold normalized_cross, cross, dot, Rgtb; simpl.
    rewrite (sqrt_1_of _) by ring. rewrite (Rltb_true 0 1) by lra. simpl. lra. }
  split; [exact H |].
  pose proof (normalized_cross_with_operand_order (V3 1 0 0) (V3 0 1 0)
                [V3 1 0 0] [V3 0 1 0; V3 0 0 1]) as [H1 [H2 H3]].
  split; [exact H1 |]. split; [exact (H2 H) | exact H3].
Defined.

(** ** The local frame *)

Lemma direction_vector_horizontal (self : vec) :
  vz (Vector.direction_vector self) = 0.
Proof.
  unfold Vector.direction_vector. destruct (Reqb (Rabs (vz self)) 1); simpl.
  - reflexivity.
  - unfold Rdiv. ring.
Qed.

(** X17.  For a unit vector, [direction_vector], [dip_vector] and the
    vector itself are three unit vectors perpendicular to one another, with
    [direction_vector x dip_vector] equal to the vector; [direction_vector]
    is horizontal. *)
Theorem direction_dip_frame (self : vec) :
  is_unit self ->
  let d := Vector.direction_vector self in
  let p := Vector.dip_vector self in
  is_unit d /\ is_unit p /\
  dot self d = 0 /\ dot self p = 0 /\ dot d p = 0 /\
  cross d p = self /\
  vz d = 0.
Proof.
  intros Hu d p. destruct (vector_frame self Hu) as [H1 H2 H3 H4 H5].
  fold d in H1, H3, H5. fold p in H2, H4, H5.
  repeat (split; [assumption |]). split; [| apply direction_vector_horizontal].
  unfold p, Vector.dip_vector. rewrite (unit_length self Hu), vdiv_1. fold d.
  assert (E : cross d (cross self d)
              = vsub (vscale (dot d d) self) (vscale (dot d self) d)).
  { destruct d as [a b c], self as [x y z].
    unfold cross, vsub, vscale, dot; simpl. f_equal; ring. }
  rewrite E. unfold is_unit in H1. rewrite H1, (dot_comm d self), H3.
  destruct self as [x y z], d as [a b c]. unfold vsub, vscale; simpl. f_equal; ring.
Qed.

Lemma direction_dip_frame_witness :
  is_unit (V3 (3 / 5) 0 (4 / 5)) /\
  let d := Vector.direction_vector (V3 (3 / 5) 0 (4 / 5)) in
  let p := Vector.dip_vector (V3 (3 / 5) 0 (4 / 5)) in
  is_unit d /\ is_unit p /\
  dot (V3 (3 / 5) 0 (4 / 5)) d = 0 /\ dot (V3 (3 / 5) 0 (4 / 5)) p = 0 /\
  dot d p = 0 /\
  cross d p = V3 (3 / 5) 0 (4 / 5) /\
  vz d = 0.
Proof.
  assert (H : is_unit (V3 (3 / 5) 0 (4 / 5))) by (unfold is_unit, dot; simpl; field).
  split; [exact H |].
  exact (direction_dip_frame (V3 (3 / 5) 0 (4 / 5)) H).
Defined.

(** ** Projections onto the disk *)

Lemma pre_direct_point_lower (k : Projection.kind) (rotation : option (R * R * R))
      (rotate : bool) (p : vec) :
  0 < dot p p ->
  is_unit (Projection.pre_direct_point (Projection.init k rotation) true rotate p) /\
  vz (Projection.pre_direct_point (Projection.init k rotation) true rotate p) <= 0.
Proof.
  intros Hp. rewrite pre_direct_point_invert. cbv zeta.
  pose proof (rotated_nonzero k rotation rotate p Hp) as Hr.
  set (r := rotated (Projection.init k rotation) rotate p) in *.
  pose proof (normalize_unit r Hr) as Hu. fold (Vector.length r) in Hu.
  assert (HL : 0 < Vector.length r) by (apply sqrt_lt_R0; exact Hr).
  assert (Hinv : 0 < / Vector.length r) by (apply Rinv_0_lt_compat; exact HL).
  assert (Hz : vz (vdiv r (Vector.length r)) = vz r * / Vector.length r) by reflexivity.
  unfold Rgtb, Rltb. destruct (Rlt_dec 0 (vz r)) as [P | N].
  - split; [apply vneg_unit; exact Hu |].
    change (vz (vneg (vdiv r (Vector.length r))))
      with (- vz (vdiv r (Vector.length r))).
    rewrite Hz. nra.
  - split; [exact Hu |]. rewrite Hz. nra.
Qed.

Lemma dtr_in_disk (k : Projection.kind) (q : vec) :
  is_unit q -> vz q <= 0 ->
  fst (Projection._dtr k q) * fst (Projection._dtr k q)
  + snd (Projection._dtr k q) * snd (Projection._dtr k q) <= 1.
Proof.
  destruct q as [x y z]. unfold is_unit, dot; simpl. intros Hu Hz.
  assert (Hxy : x * x + y * y = (1 - z) * (1 + z)) by nra.
  destruct k; simpl.
  - replace (x / (1 - z) * (x / (1 - z)) + y / (1 - z) * (y / (1 - z)))
      with ((x * x + y * y) / ((1 - z) * (1 - z))) by (field; lra).
    rewrite Hxy. replace ((1 - z) * (1 + z) / ((1 - z) * (1 - z)))
      with ((1 + z) / (1 - z)) by (field; lra).
    apply (Rmult_le_reg_r (1 - z)); [lra |].
    unfold Rdiv. rewrite Rmult_assoc, Rinv_l by lra. lra.
  - nra.
  - assert (Hs : sqrt (1 / (1 - z)) * sqrt (1 / (1 - z)) = 1 / (1 - z)).
    { apply sqrt_sqrt. apply Rlt_le, Rdiv_lt_0_compat; lra. }
    replace (x * sqrt (1 / (1 - z)) * (x * sqrt (1 / (1 - z)))
             + y * sqrt (1 / (1 - z)) * (y * sqrt (1 / (1 - z))))
      with ((x * x + y * y) * (sqrt (1 / (1 - z)) * sqrt (1 / (1 - z)))) by ring.
    rewrite Hs, Hxy. replace ((1 - z) * (1 + z) * (1 / (1 - z))) with (1 + z)
      by (field; lra).
    lra.
Qed.

(** X18.  With [invert_positive=True] every projection, rotated or not,
    sends every non-zero input point into the closed unit disk. *)
Theorem direct_in_unit_disk (k : Projection.kind) (rotation : option (R * R * R))
        (rotate : bool) (data : list vec) :
  Forall (fun p => 0 < dot p p) data ->
  Forall (fun P => fst P * fst P + snd P * snd P <= 1)
         (Projection.direct (Projection.init k rotation) data true rotate).
Proof.
  intros Hdata. unfold Projection.direct, Projection._pre_direct.
  rewrite !Forall_map. revert Hdata. apply Forall_impl. intros p Hp.
  destruct (pre_direct_point_lower k rotation rotate p Hp) as [Hu Hz].
  replace (Projection.cls (Projection.init k rotation)) with k
    by (destruct rotation as [[[a b] c] |]; reflexivity).
  apply dtr_in_disk; assumption.
Qed.

Lemma direct_in_unit_disk_witness :
  Forall (fun p => 0 < dot p p) [V3 0 3 4; V3 1 0 (-1)] /\
  Forall (fun P => fst P * fst P + snd P * snd P <= 1)
         (Projection.direct
            (Projection.init Projection.EqualAngle (Some (30, 60, 0)))
            [V3 0 3 4; V3 1 0 (-1)] true true).
Proof.
  assert (H : Forall (fun p => 0 < dot p p) [V3 0 3 4; V3 1 0 (-1)]).
  { repeat constructor; unfold dot; simpl; lra. }
  split; [exact H |].
  exact (direct_in_unit_disk Projection.EqualAngle (Some (30, 60, 0)) true
           [V3 0 3 4; V3 1 0 (-1)] H).
Defined.

(** ** The rotation of a projection and its inverse *)

Lemma det_rotation_arrays (ca sa cp sp cr sr : R) :
  det (mmul (mmul (M3 (V3 ca sa 0) (V3 (- sa) ca 0) (V3 0 0 1))
                  (M3 (V3 1 0 0) (V3 0 cp sp) (V3 0 (- sp) cp)))
            (M3 (V3 cr 0 sr) (V3 0 1 0) (V3 (- sr) 0 cr)))
  = (ca * ca + sa * sa) * (cp * cp + sp * sp) * (cr * cr + sr * sr).
Proof.
  unfold det, mmul, mrow, col1, col2, col3, cross, dot; simpl. ring.
Qed.

Lemma det_build_rotation_matrix (azim plng rake : R) :
  det (build_rotation_matrix azim plng rake) = 1.
Proof.
  unfold build_rotation_matrix, R1, R2, R3. rewrite det_rotation_arrays.
  rewrite (Rplus_comm (cos (radians azim) * cos (radians azim))).
  rewrite (Rplus_comm (cos (radians plng) * cos (radians plng))).
  rewrite (Rplus_comm (cos (radians rake) * cos (radians rake))).
  rewrite !sin_cos_sum. ring.
Qed.

Lemma inv_left (m : mat) : det m <> 0 -> mmul (inv m) m = eye.
Proof.
  destruct m as [[a b c] [d e f] [g h i]]. unfold det, cross, dot; simpl. intros Hd.
  unfold inv, det, mscale, vscale, transpose, mmul, mrow, col1, col2, col3,
    cross, dot, eye; simpl.
  f_equal; f_equal; field; exact Hd.
Qed.

Lemma inv_orthonormal (m : mat) :
  orthonormal m -> det m <> 0 -> inv m = transpose m.
Proof.
  intros [H1 H2] Hd.
  rewrite <- (mmul_eye_r (inv m)), <- H1, <- mmul_assoc, (inv_left m Hd).
  apply mmul_eye_l.
Qed.

Lemma transpose_involutive (m : mat) : transpose (transpose m) = m.
Proof. destruct m as [[] [] []]. reflexivity. Qed.

Lemma orthonormal_transpose (m : mat) : orthonormal m -> orthonormal (transpose m).
Proof.
  intros [H1 H2]. unfold orthonormal. rewrite transpose_involutive. split; assumption.
Qed.

Lemma orthonormal_eye : orthonormal eye.
Proof. split; unfold mmul, mrow, transpose, col1, col2, col3, eye, dot; simpl;
  f_equal; f_equal; ring. Qed.

Lemma init_matrices (k : Projection.kind) (rotation : option (R * R * R)) :
  orthonormal (Projection.R_ (Projection.init k rotation)) /\
  Projection.I_ (Projection.init k rotation)
  = transpose (Projection.R_ (Projection.init k rotation)) /\
  det (Projection.R_ (Projection.init k rotation)) = 1.
Proof.
  destruct rotation as [[[azim plng] rake] |]; simpl.
  - pose proof (build_rotation_matrix_orthonormal azim plng rake) as Ho.
    pose proof (det_build_rotation_matrix azim plng rake) as Hd.
    split; [exact Ho |]. split; [| exact Hd].
    apply inv_orthonormal; [exact Ho | lra].
  - split; [exact orthonormal_eye |]. split; [reflexivity |].
    unfold det, eye, cross, dot; simpl. ring.
Qed.

(** X19.  The two matrices a projection keeps are inverse to each other:
    [I] is the transpose of [R], [I.R = R.I = identity], and [R] has
    determinant 1 (the identity when no rotation is given). *)
Theorem init_rotation_inverse (k : Projection.kind) (rotation : option (R * R * R)) :
  let self := Projection.init k rotation in
  mmul (Projection.I_ self) (Projection.R_ self) = eye /\
  mmul (Projection.R_ self) (Projection.I_ self) = eye /\
  Projection.I_ self = transpose (Projection.R_ self) /\
  det (Projection.R_ self) = 1 /\
  (rotation = None -> Projection.R_ self = eye).
Proof.
  intros self. destruct (init_matrices k rotation) as [[H1 H2] [HI Hd]].
  fold self in H1, H2, HI, Hd. rewrite HI.
  repeat (split; [assumption || reflexivity |]).
  intros ->. reflexivity.
Qed.

Lemma rotated_unit (k : Projection.kind) (rotation : option (R * R * R))
      (rotate : bool) (v : vec) :
  is_unit v -> is_unit (rotated (Projection.init k rotation) rotate v).
Proof.
  intros Hu. unfold rotated.
  destruct (init_matrices k rotation) as [Ho _].
  destruct (Projection.rotation (Projection.init k rotation)); [| exact Hu].
  destruct rotate; [| exact Hu].
  unfold is_unit. rewrite orthonormal_preserves_norm; assumption.
Qed.

Lemma pre_direct_point_plain (k : Projection.kind) (rotation : option (R * R * R))
      (rotate : bool) (v : vec) :
  is_unit v ->
  Projection.pre_direct_point (Projection.init k rotation) false rotate v
  = rotated (Projection.init k rotation) rotate v.
Proof.
  intros Hu. pose proof (rotated_unit k rotation rotate v Hu) as Hr.
  unfold Projection.pre_direct_point. fold (rotated (Projection.init k rotation) rotate v).
  destruct (rotated (Projection.init k rotation) rotate v) as [x y z].
  unfold is_unit, dot in Hr. simpl in *. rewrite Hr, sqrt_1. f_equal; field.
Qed.

Lemma init_cls (k : Projection.kind) (rotation : option (R * R * R)) :
  Projection.cls (Projection.init k rotation) = k.
Proof. destruct rotation as [[[a b] c] |]; reflexivity. Qed.

Lemma post_inverse_rotated (k : Projection.kind) (rotation : option (R * R * R))
      (v : vec) :
  Projection._post_inverse (Projection.init k rotation)
    [rotated (Projection.init k rotation) true v] true = [v].
Proof.
  destruct (init_matrices k rotation) as [[_ H2] [HI _]].
  unfold Projection._post_inverse, rotated.
  destruct (Projection.rotation (Projection.init k rotation)); [| reflexivity].
  cbn [map]. rewrite <- mvec_mmul, HI, H2, mvec_eye. reflexivity.
Qed.

Lemma rotated_roundtrip_points (k : Projection.kind)
      (rotation : option (R * R * R)) (v : vec) :
  k <> Projection.Orthographic ->
  is_unit v ->
  vz (rotated (Projection.init k rotation) true v) < 1 ->
  Projection.inverse (Projection.init k rotation)
    (Projection.direct (Projection.init k rotation) [v] false true) true = [v].
Proof.
  intros Hk Hu Hz. unfold Projection.inverse, Projection.direct, Projection._pre_direct.
  cbn [map]. rewrite init_cls, pre_direct_point_plain by exact Hu.
  pose proof (rotated_unit k rotation true v Hu) as Hr.
  assert (E : Projection._itr k
                (Projection._dtr k (rotated (Projection.init k rotation) true v))
              = rotated (Projection.init k rotation) true v).
  { destruct k; [apply equal_angle_itr_dtr | contradiction | apply equal_area_itr_dtr];
      assumption. }
  rewrite E. apply post_inverse_rotated.
Qed.

(** X20.  The round trip of EqualAngle and EqualArea through the
    transposition also holds for a rotated projection: for a unit vector
    whose rotated z is below 1, [inverse] applied to the transposed result
    of [direct [v]] with [invert_positive=False] is [v]. *)
Theorem rotated_roundtrip (k : Projection.kind) (rotation : option (R * R * R))
        (v : vec) :
  k <> Projection.Orthographic ->
  is_unit v ->
  vz (rotated (Projection.init k rotation) true v) < 1 ->
  Projection.inverse_array (Projection.init k rotation)
    (np_transpose
       (Projection.as_array
          (Projection.direct_arrays (Projection.init k rotation) [v] false true)))
    true
  = Ok [v].
Proof.
  intros Hk Hu Hz. rewrite inverse_array_transposed.
  rewrite rotated_roundtrip_points by assumption. reflexivity.
Qed.

Lemma build_rotation_matrix_quarter_turn :
  mvec (build_rotation_matrix 90 0 0) (V3 1 0 0) = V3 0 (-1) 0.
Proof.
  unfold build_rotation_matrix, R1, R2, R3.
  replace (radians 0) with 0 by (unfold radians; ring).
  replace (radians 90) with (PI / 2) by (unfold radians; field).
  rewrite cos_0, sin_0, cos_PI2, sin_PI2.
  unfold mvec, mmul, mrow, col1, col2, col3, dot; simpl. f_equal; ring.
Qed.

Lemma rotated_roundtrip_witness :
  Projection.EqualArea <> Projection.Orthographic /\
  is_unit (V3 1 0 0) /\
  vz (rotated (Projection.init Projection.EqualArea (Some (90, 0, 0))) true
              (V3 1 0 0)) < 1 /\
  Projection.inverse_array (Projection.init Projection.EqualArea (Some (90, 0, 0)))
    (np_transpose
       (Projection.as_array
          (Projection.direct_arrays
             (Projection.init Projection.EqualArea (Some (90, 0, 0)))
             [V3 1 0 0] false true)))
    true
  = Ok [V3 1 0 0].
Proof.
  assert (H1 : Projection.EqualArea <> Projection.Orthographic) by discriminate.
  assert (H2 : is_unit (V3 1 0 0)) by (unfold is_unit, dot; simpl; ring).
  assert (H3 : vz (rotated (Projection.init Projection.EqualArea (Some (90, 0, 0)))
                           true (V3 1 0 0)) < 1).
  { unfold rotated, Projection.init; simpl Projection.rotation; cbv iota beta.
    simpl Projection.R_. rewrite build_rotation_matrix_quarter_turn. simpl. lra. }
  split; [exact H1 |]. split; [exact H2 |]. split; [exact H3 |].
  exact (rotated_roundtrip Projection.EqualArea (Some (90, 0, 0)) (V3 1 0 0)
           H1 H2 H3).
Defined.

(** ** From the disk to the sphere and back *)

Lemma itr_unit (k : Projection.kind) (P : R * R) :
  inverse_domain k P -> is_unit (Projection._itr k P).
Proof.
  destruct P as [X Y]. unfold is_unit, dot. destruct k; simpl; intros Hd.
  - field. nra.
  - rewrite sqrt_sqrt by lra. ring.
  - assert (H22 : sqrt 2 * sqrt 2 = 2) by (apply sqrt_sqrt; lra).
    assert (Hr : X * sqrt 2 * (X * sqrt 2) + Y * sqrt 2 * (Y * sqrt 2)
                 = 2 * (X * X + Y * Y)).
    { replace (X * sqrt 2 * (X * sqrt 2) + Y * sqrt 2 * (Y * sqrt 2))
        with ((X * X + Y * Y) * (sqrt 2 * sqrt 2)) by ring.
      rewrite H22. ring. }
    rewrite Hr.
    set (w := sqrt (1 - 2 * (X * X + Y * Y) / 4)).
    assert (Hw : w * w = 1 - 2 * (X * X + Y * Y) / 4) by (apply sqrt_sqrt; lra).
    replace (w * (X * sqrt 2) * (w * (X * sqrt 2))
             + w * (Y * sqrt 2) * (w * (Y * sqrt 2)))
      with (w * w * ((X * X + Y * Y) * (sqrt 2 * sqrt 2))) by ring.
    rewrite Hw, H22. field.
Qed.

Lemma dtr_itr (k : Projection.kind) (P : R * R) :
  inverse_domain k P -> Projection._dtr k (Projection._itr k P) = P.
Proof.
  destruct P as [X Y]. unfold Projection._dtr, Projection._itr.
  destruct k; simpl; intros Hd.
  - assert (Hpos : 0 < 1 + X * X + Y * Y) by nra.
    apply f_equal2; field; nra.
  - reflexivity.
  - assert (H22 : sqrt 2 * sqrt 2 = 2) by (apply sqrt_sqrt; lra).
    assert (Hr : X * sqrt 2 * (X * sqrt 2) + Y * sqrt 2 * (Y * sqrt 2)
                 = 2 * (X * X + Y * Y)).
    { replace (X * sqrt 2 * (X * sqrt 2) + Y * sqrt 2 * (Y * sqrt 2))
        with ((X * X + Y * Y) * (sqrt 2 * sqrt 2)) by ring.
      rewrite H22. ring. }
    rewrite Hr.
    set (r2 := X * X + Y * Y) in *.
    assert (Hk : sqrt (1 - 2 * r2 / 4) * sqrt 2
                 * sqrt (1 / (1 - (-1 + 2 * r2 / 2))) = 1).
    { assert (Hc : 0 <= 1 / (1 - (-1 + 2 * r2 / 2))).
      { apply Rlt_le, Rdiv_lt_0_compat; lra. }
      rewrite <- (sqrt_mult (1 - 2 * r2 / 4) 2) by lra.
      rewrite <- sqrt_mult; [| nra | exact Hc].
      apply sqrt_1_of. field. lra. }
    apply f_equal2.
    + replace (sqrt (1 - 2 * r2 / 4) * (X * sqrt 2)
               * sqrt (1 / (1 - (-1 + 2 * r2 / 2))))
        with (X * (sqrt (1 - 2 * r2 / 4) * sqrt 2
                   * sqrt (1 / (1 - (-1 + 2 * r2 / 2))))) by ring.
      rewrite Hk. ring.
    + replace (sqrt (1 - 2 * r2 / 4) * (Y * sqrt 2)
               * sqrt (1 / (1 - (-1 + 2 * r2 / 2))))
        with (Y * (sqrt (1 - 2 * r2 / 4) * sqrt 2
                   * sqrt (1 / (1 - (-1 + 2 * r2 / 2))))) by ring.
      rewrite Hk. ring.
Qed.

Lemma rotated_post_inverse (k : Projection.kind) (rotation : option (R * R * R))
      (w : vec) :
  map (rotated (Projection.init k rotation) true)
      (Projection._post_inverse (Projection.init k rotation) [w] true) = [w].
Proof.
  destruct (init_matrices k rotation) as [[H1 _] [HI _]].
  unfold Projection._post_inverse, rotated.
  destruct (Projection.rotation (Projection.init k rotation)); [| reflexivity].
  cbn [map]. rewrite <- mvec_mmul, HI, H1, mvec_eye. reflexivity.
Qed.

Lemma post_inverse_unit (k : Projection.kind) (rotation : option (R * R * R))
      (rotate : bool) (l : list vec) :
  Forall is_unit l ->
  Forall is_unit (Projection._post_inverse (Projection.init k rotation) l rotate).
Proof.
  intros Hl. destruct (init_matrices k rotation) as [Ho [HI _]].
  unfold Projection._post_inverse.
  destruct (Projection.rotation (Projection.init k rotation)); [| exact Hl].
  destruct rotate; [| exact Hl].
  rewrite Forall_map. revert Hl. apply Forall_impl. intros v Hv.
  unfold is_unit. rewrite HI, orthonormal_preserves_norm; [exact Hv |].
  apply orthonormal_transpose. exact Ho.
Qed.

(** X21.  [inverse] returns points of the unit sphere: every point of the
    plane for EqualAngle, of the closed unit disk for Orthographic and of
    the disk of squared radius 2 for EqualArea comes back with magnitude 1,
    whether or not the projection is rotated. *)
Theorem inverse_on_sphere (k : Projection.kind) (rotation : option (R * R * R))
        (rotate : bool) (data : list (R * R)) :
  Forall (inverse_domain k) data ->
  Forall (fun v => Vector.length v = 1)
         (Projection.inverse (Projection.init k rotation) data rotate).
Proof.
  intros Hd. apply Forall_unit_length. unfold Projection.inverse.
  apply post_inverse_unit. rewrite Forall_map, init_cls.
  revert Hd. apply Forall_impl. intros P. apply itr_unit.
Qed.

Lemma inverse_on_sphere_witness :
  Forall (inverse_domain Projection.Orthographic) [(3 / 5, 0); (0, 1)] /\
  Forall (fun v => Vector.length v = 1)
         (Projection.inverse
            (Projection.init Projection.Orthographic (Some (30, 60, 0)))
            [(3 / 5, 0); (0, 1)] true).
Proof.
  assert (H : Forall (inverse_domain Projection.Orthographic) [(3 / 5, 0); (0, 1)]).
  { repeat constructor; simpl; lra. }
  split; [exact H |].
  exact (inverse_on_sphere Projection.Orthographic (Some (30, 60, 0)) true
           [(3 / 5, 0); (0, 1)] H).
Defined.

(** X22.  Projecting what [inverse] returns gives the point of the plane
    back: [direct (inverse [P]), invert_positive=False)] is [P] on the
    domain of the inverse, for all three projections, rotated or not. *)
Theorem direct_inverse_roundtrip (k : Projection.kind)
        (rotation : option (R * R * R)) (P : R * R) :
  inverse_domain k P ->
  Projection.direct (Projection.init k rotation)
    (Projection.inverse (Projection.init k rotation) [P] true) false true = [P].
Proof.
  intros Hd. pose proof (itr_unit k P Hd) as Hu.
  unfold Projection.inverse. cbn [map]. rewrite init_cls.
  set (w := Projection._itr k P) in *.
  assert (Hall : Forall is_unit
                   (Projection._post_inverse (Projection.init k rotation) [w] true)).
  { apply post_inverse_unit. repeat constructor. exact Hu. }
  unfold Projection.direct, Projection._pre_direct. rewrite init_cls.
  rewrite (map_ext_in _ (rotated (Projection.init k rotation) true)).
  - rewrite rotated_post_inverse. cbn [map]. unfold w. rewrite dtr_itr by exact Hd.
    reflexivity.
  - intros v Hin. rewrite Forall_forall in Hall.
    apply pre_direct_point_plain. apply Hall. exact Hin.
Qed.

Lemma direct_inverse_roundtrip_witness :
  inverse_domain Projection.EqualArea (3 / 5, 4 / 5) /\
  Projection.direct (Projection.init Projection.EqualArea (Some (30, 60, 0)))
    (Projection.inverse (Projection.init Projection.EqualArea (Some (30, 60, 0)))
                        [(3 / 5, 4 / 5)] true) false true = [(3 / 5, 4 / 5)].
Proof.
  assert (H : inverse_domain Projection.EqualArea (3 / 5, 4 / 5)) by (simpl; lra).
  split; [exact H |].
  exact (direct_inverse_roundtrip Projection.EqualArea (Some (30, 60, 0))
           (3 / 5, 4 / 5) H).
Defined.

(** ** What [direct] does not depend on *)

Lemma mvec_vscale (m : mat) (k : R) (p : vec) :
  mvec m (vscale k p) = vscale k (mvec m p).
Proof.
  destruct m as [[] [] []], p. unfold mvec, vscale, dot; simpl. f_equal; ring.
Qed.

Lemma rotated_vscale (self : Projection.t) (rotate : bool) (k : R) (p : vec) :
  rotated self rotate (vscale k p) = vscale k (rotated self rotate p).
Proof.
  unfold rotated. destruct (Projection.rotation self); [| reflexivity].
  destruct rotate; [apply mvec_vscale | reflexivity].
Qed.

Lemma vneg_vscale (p : vec) : vneg p = vscale (-1) p.
Proof. destruct p. unfold vneg, vscale; simpl. f_equal; ring. Qed.

Lemma rotated_vneg (self : Projection.t) (rotate : bool) (p : vec) :
  rotated self rotate (vneg p) = vneg (rotated self rotate p).
Proof. rewrite !vneg_vscale. apply rotated_vscale. Qed.

Lemma pre_direct_point_keep (self : Projection.t) (rotate : bool) (p : vec) :
  let q := rotated self rotate p in
  Projection.pre_direct_point self false rotate p = vdiv q (Vector.length q).
Proof.
  intros q. unfold Projection.pre_direct_point. fold (rotated self rotate p).
  fold q. destruct q as [x y z]. simpl.
  unfold Vector.length, dot, vdiv; simpl. f_equal; unfold Rdiv; ring.
Qed.

Lemma length_vscale (k : R) (q : vec) :
  0 < k -> Vector.length (vscale k q) = k * Vector.length q.
Proof.
  intros Hk. unfold Vector.length.
  replace (dot (vscale k q) (vscale k q)) with (k * k * dot q q)
    by (unfold dot, vscale; simpl; ring).
  rewrite sqrt_mult; [| nra | apply dot_self_nonneg].
  rewrite sqrt_square by lra. reflexivity.
Qed.

Lemma normalize_vscale (k : R) (q : vec) :
  0 < k -> 0 < dot q q ->
  vdiv (vscale k q) (Vector.length (vscale k q)) = vdiv q (Vector.length q).
Proof.
  intros Hk Hq. rewrite length_vscale by exact Hk.
  pose proof (length_pos q Hq) as HL.
  destruct q as [x y z]. unfold vdiv, vscale; simpl. f_equal; field; lra.
Qed.

Lemma pre_direct_point_scale (k : Projection.kind) (rotation : option (R * R * R))
      (invert_positive rotate : bool) (c : R) (p : vec) :
  0 < c -> 0 < dot p p ->
  Projection.pre_direct_point (Projection.init k rotation) invert_positive rotate
    (vscale c p)
  = Projection.pre_direct_point (Projection.init k rotation) invert_positive rotate p.
Proof.
  intros Hc Hp. pose proof (rotated_nonzero k rotation rotate p Hp) as Hq.
  destruct invert_positive.
  - rewrite !pre_direct_point_invert. cbv zeta. rewrite rotated_vscale.
    rewrite normalize_vscale by assumption.
    replace (Rgtb (vz (vscale c (rotated (Projection.init k rotation) rotate p))) 0)
      with (Rgtb (vz (rotated (Projection.init k rotation) rotate p)) 0);
      [reflexivity |].
    unfold Rgtb, Rltb. simpl.
    destruct (Rlt_dec 0 (vz (rotated (Projection.init k rotation) rotate p)));
      destruct (Rlt_dec 0 (c * vz (rotated (Projection.init k rotation) rotate p)));
      try reflexivity; nra.
  - rewrite !pre_direct_point_keep. cbv zeta. rewrite rotated_vscale.
    apply normalize_vscale; assumption.
Qed.

Lemma pre_direct_point_antipode (k : Projection.kind)
      (rotation : option (R * R * R)) (rotate : bool) (p : vec) :
  vz (rotated (Projection.init k rotation) rotate p) <> 0 ->
  Projection.pre_direct_point (Projection.init k rotation) true rotate (vneg p)
  = Projection.pre_direct_point (Projection.init k rotation) true rotate p.
Proof.
  intros Hz. rewrite !pre_direct_point_invert. cbv zeta. rewrite rotated_vneg.
  set (q := rotated (Projection.init k rotation) rotate p) in *.
  rewrite length_vneg.
  assert (E : vdiv (vneg q) (Vector.length q) = vneg (vdiv q (Vector.length q))).
  { destruct q as [x y z]. unfold vdiv, vneg; simpl. f_equal; unfold Rdiv; ring. }
  rewrite E. unfold Rgtb, Rltb.
  change (vz (vneg q)) with (- vz q).
  destruct (Rlt_dec 0 (- vz q)); destruct (Rlt_dec 0 (vz q)); try lra.
  - apply vneg_involutive.
  - reflexivity.
Qed.

(** X23.  [direct] only looks at directions: scaling the non-zero input
    points by a positive factor changes nothing, and with
    [invert_positive=True] a point and its antipode project to the same
    place, as long as the (rotated) point is not horizontal. *)
Theorem direct_direction_only (k : Projection.kind) (rotation : option (R * R * R))
        (invert_positive rotate : bool) (c : R) (data : list vec) :
  0 < c ->
  Forall (fun p => 0 < dot p p) data ->
  Projection.direct (Projection.init k rotation) (map (vscale c) data)
                    invert_positive rotate
  = Projection.direct (Projection.init k rotation) data invert_positive rotate /\
  (Forall (fun p => vz (rotated (Projection.init k rotation) rotate p) <> 0) data ->
   Projection.direct (Projection.init k rotation) (map vneg data) true rotate
   = Projection.direct (Projection.init k rotation) data true rotate).
Proof.
  intros Hc Hdata. unfold Projection.direct, Projection._pre_direct.
  rewrite !map_map. split.
  - apply map_ext_in. intros p Hin. rewrite Forall_forall in Hdata.
    rewrite pre_direct_point_scale; [reflexivity | exact Hc | apply Hdata; exact Hin].
  - intros Hz. apply map_ext_in. intros p Hin. rewrite Forall_forall in Hz.
    rewrite pre_direct_point_antipode; [reflexivity | apply Hz; exact Hin].
Qed.

Lemma direct_direction_only_witness :
  0 < 3 /\
  Forall (fun p => 0 < dot p p) [V3 0 3 4; V3 1 0 (-1)] /\
  Forall (fun p => vz (rotated (Projection.init Projection.EqualArea None) true p) <> 0)
         [V3 0 3 4; V3 1 0 (-1)] /\
  Projection.direct (Projection.init Projection.EqualArea None)
                    (map (vscale 3) [V3 0 3 4; V3 1 0 (-1)]) true true
  = Projection.direct (Projection.init Projection.EqualArea None)
                      [V3 0 3 4; V3 1 0 (-1)] true true /\
  Projection.direct (Projection.init Projection.EqualArea None)
                    (map vneg [V3 0 3 4; V3 1 0 (-1)]) true true
  = Projection.direct (Projection.init Projection.EqualArea None)
                      [V3 0 3 4; V3 1 0 (-1)] true true.
Proof.
  assert (H1 : 0 < 3) by lra.
  assert (H2 : Forall (fun p => 0 < dot p p) [V3 0 3 4; V3 1 0 (-1)]).
  { repeat constructor; unfold dot; simpl; lra. }
  assert (H3 : Forall (fun p => vz (rotated (Projection.init Projection.EqualArea None)
                                            true p) <> 0)
                      [V3 0 3 4; V3 1 0 (-1)]).
  { repeat constructor; simpl; lra. }
  split; [exact H1 |]. split; [exact H2 |]. split; [exact H3 |].
  pose proof (direct_direction_only Projection.EqualArea None true true 3
                [V3 0 3 4; V3 1 0 (-1)] H1 H2) as [Ha Hb].
  split; [exact Ha | exact (Hb H3)].
Defined.

(** ** Angles between vectors *)

Lemma angle_with_acos_sym (a b : vec) :
  Vector.angle_with_acos a b = Vector.angle_with_acos b a.
Proof.
  unfold Vector.angle_with_acos, Vector.length.
  rewrite (dot_comm a b), (Rmult_comm (sqrt (dot a a))). reflexivity.
Qed.

Lemma angle_with_acos_self (v : vec) :
  0 < dot v v -> Vector.angle_with_acos v v = 0.
Proof.
  intros Hv. unfold Vector.angle_with_acos, Vector.length.
  rewrite sqrt_sqrt by lra.
  replace (dot v v / dot v v) with 1 by (field; lra).
  rewrite clip_inside by lra. apply acos_1.
Qed.

Lemma angle_with_acos_antipode (v : vec) :
  0 < dot v v -> Vector.angle_with_acos v (vneg v) = PI.
Proof.
  intros Hv. unfold Vector.angle_with_acos, Vector.length.
  rewrite dot_vneg, sqrt_sqrt by lra.
  replace (dot v (vneg v)) with (- dot v v) by (unfold dot, vneg; simpl; ring).
  replace (- dot v v / dot v v) with (- (1)) by (field; lra).
  rewrite clip_inside by lra. rewrite acos_opp, acos_1. ring.
Qed.

(** X24.  For non-zero vectors the default [angle_with] is symmetric in
    its two vectors and lies in [0, pi]; a non-zero vector is at angle 0
    from itself and at angle pi from its antipode. *)
Theorem angle_with_basic (a b : vec) :
  0 < dot a a ->
  0 < dot b b ->
  Vector.angle_with a b false = Vector.angle_with b a false /\
  (exists t, Vector.angle_with a b false = Ok t /\ 0 <= t <= PI) /\
  Vector.angle_with a a false = Ok 0 /\
  Vector.angle_with a (vneg a) false = Ok PI.
Proof.
  intros Ha Hb. rewrite !angle_with_default_ok. split; [| split].
  - f_equal. apply angle_with_acos_sym.
  - eexists. split; [reflexivity |]. apply acos_bound.
  - rewrite angle_with_acos_self, angle_with_acos_antipode by exact Ha.
    split; reflexivity.
Qed.

Lemma angle_with_basic_witness :
  0 < dot (V3 1 2 2) (V3 1 2 2) /\
  0 < dot (V3 0 0 1) (V3 0 0 1) /\
  Vector.angle_with (V3 1 2 2) (V3 0 0 1) false
    = Vector.angle_with (V3 0 0 1) (V3 1 2 2) false /\
  (exists t, Vector.angle_with (V3 1 2 2) (V3 0 0 1) false = Ok t /\ 0 <= t <= PI) /\
  Vector.angle_with (V3 1 2 2) (V3 1 2 2) false = Ok 0 /\
  Vector.angle_with (V3 1 2 2) (vneg (V3 1 2 2)) false = Ok PI.
Proof.
  assert (H1 : 0 < dot (V3 1 2 2) (V3 1 2 2)) by (unfold dot; simpl; lra).
  assert (H2 : 0 < dot (V3 0 0 1) (V3 0 0 1)) by (unfold dot; simpl; lra).
  split; [exact H1 |]. split; [exact H2 |].
  exact (angle_with_basic (V3 1 2 2) (V3 0 0 1) H1 H2).
Defined.




(** ** Great circles *)

Lemma great_circle_right_angle (axis : vec) (step offset : R) :
  is_unit axis -> step <> 0 ->
  exists gc, Vector.get_great_circle axis step offset = Ok gc /\
             Forall (fun p => Vector.length p = 1 /\
                              Vector.angle_with axis p false = Ok (PI / 2)) gc.
Proof.
  intros Hu Hs.
  destruct (get_great_circle_spec axis step offset Hu Hs) as [gc [E Hgc]].
  exists gc. split; [exact E |]. revert Hgc. apply Forall_impl.
  intros p [Hp Ho]. split; [apply unit_length; exact Hp |].
  rewrite angle_with_default_ok. f_equal.
  pose proof PI_RGT_0 as Hpi.
  apply angle_with_acos_unit; [exact Hu | exact Hp | | lra].
  rewrite cos_PI2. exact Ho.
Qed.

(** X26.  Every point of [get_great_circle] of a unit vector is a unit
    vector at a right angle (pi / 2, by the default [angle_with]) from the
    vector, for every non-zero step and every offset; a positive step
    gives at least one point. *)
Theorem great_circle_membership (axis : vec) (step offset : R) :
  is_unit axis -> step <> 0 ->
  exists gc, Vector.get_great_circle axis step offset = Ok gc /\
             Forall (fun p => Vector.length p = 1 /\
                              Vector.angle_with axis p false = Ok (PI / 2)) gc /\
             (0 < step -> gc <> []).
Proof.
  intros Hu Hs.
  destruct (great_circle_right_angle axis step offset Hu Hs) as [gc [E Hgc]].
  exists gc. split; [exact E |]. split; [exact Hgc |].
  intros Hpos.
  destruct (get_great_circle_nonempty axis step offset Hpos) as [p [gc' E']].
  rewrite E in E'. injection E' as ->. discriminate.
Qed.

Lemma great_circle_membership_witness :
  is_unit (V3 (3 / 5) 0 (4 / 5)) /\ radians 1 <> 0 /\
  exists gc, Vector.get_great_circle (V3 (3 / 5) 0 (4 / 5)) (radians 1) 0 = Ok gc /\
             Forall (fun p => Vector.length p = 1 /\
                              Vector.angle_with (V3 (3 / 5) 0 (4 / 5)) p false
                              = Ok (PI / 2)) gc /\
             (0 < radians 1 -> gc <> []).
Proof.
  pose proof PI_RGT_0 as Hpi.
  assert (H1 : is_unit (V3 (3 / 5) 0 (4 / 5))) by (unfold is_unit, dot; simpl; field).
  assert (H2 : radians 1 <> 0) by (unfold radians; lra).
  split; [exact H1 |]. split; [exact H2 |].
  exact (great_circle_membership (V3 (3 / 5) 0 (4 / 5)) (radians 1) 0 H1 H2).
Defined.

(** X27.  [VectorSet.get_great_circle] yields one circle per vector of the
    set, in order; for unit vectors and a non-zero step no item fails and
    the points of each circle are at a right angle from its own vector. *)
Theorem vectorset_great_circles (self : list vec) (step : R) :
  Forall is_unit self -> step <> 0 ->
  length (VectorSet_get_great_circle self step) = length self /\
  forall i axis, nth_error self i = Some axis ->
    exists gc,
      nth_error (VectorSet_get_great_circle self step) i = Some (Ok gc) /\
      Forall (fun p => Vector.length p = 1 /\
                       Vector.angle_with axis p false = Ok (PI / 2)) gc.
Proof.
  intros Hall Hs. unfold VectorSet_get_great_circle.
  split; [apply length_map |].
  intros i axis Hi. rewrite nth_error_map, Hi. simpl.
  rewrite Forall_forall in Hall.
  destruct (great_circle_right_angle axis step 0
              (Hall axis (nth_error_In _ _ Hi)) Hs) as [gc [E Hgc]].
  exists gc. rewrite E. split; [reflexivity | exact Hgc].
Qed.

Lemma vectorset_great_circles_witness :
  Forall is_unit [V3 0 0 (-1); V3 1 0 0] /\ radians 1 <> 0 /\
  length (VectorSet_get_great_circle [V3 0 0 (-1); V3 1 0 0] (radians 1))
  = length [V3 0 0 (-1); V3 1 0 0] /\
  forall i axis, nth_error [V3 0 0 (-1); V3 1 0 0] i = Some axis ->
    exists gc,
      nth_error (VectorSet_get_great_circle [V3 0 0 (-1); V3 1 0 0] (radians 1)) i
      = Some (Ok gc) /\
      Forall (fun p => Vector.length p = 1 /\
                       Vector.angle_with axis p false = Ok (PI / 2)) gc.
Proof.
  pose proof PI_RGT_0 as Hpi.
  assert (H1 : Forall is_unit [V3 0 0 (-1); V3 1 0 0]).
  { repeat constructor; unfold is_unit, dot; simpl; ring. }
  assert (H2 : radians 1 <> 0) by (unfold radians; lra).
  split; [exact H1 |]. split; [exact H2 |].
  exact (vectorset_great_circles [V3 0 0 (-1); V3 1 0 0] (radians 1) H1 H2).
Defined.

(** ** Points of an arc *)

Lemma Rceil_upper (x : R) : IZR (Rceil x) < x + 1.
Proof.
  unfold Rceil. destruct (base_Int_part (- x)) as [_ Hgt].
  rewrite opp_IZR. lra.
Qed.

Lemma arange_bounds (stop step : R) (l : list R) :
  0 < step -> arange 0 stop step = Ok l ->
  Forall (fun t => 0 <= t < stop) l.
Proof.
  intros Hs. unfold arange. rewrite Reqb_false by lra.
  intros E. injection E as <-. rewrite Forall_map. apply Forall_forall.
  intros i Hi. apply in_seq in Hi. destruct Hi as [_ Hi]. simpl in Hi.
  pose proof (Rceil_upper ((stop - 0) / step)) as Hc.
  set (c := Rceil ((stop - 0) / step)) in *.
  assert (Hcpos : (0 < c)%Z) by lia.
  assert (Hn : INR (Z.to_nat c) = IZR c).
  { rewrite INR_IZR_INZ, Z2Nat.id by lia. reflexivity. }
  assert (Hlt : INR i + 1 <= IZR c).
  { rewrite <- Hn. rewrite <- S_INR. apply le_INR. lia. }
  assert (Hq : INR i < (stop - 0) / step) by lra.
  assert (Hi0 : 0 <= INR i) by apply pos_INR.
  assert (Hm : INR i * step < stop).
  { apply (Rmult_lt_compat_r step) in Hq; [| exact Hs].
    unfold Rdiv in Hq. rewrite Rmult_assoc, Rinv_l in Hq by lra. lra. }
  split; nra.
Qed.

Lemma acos_cos_abs (t : R) : - PI <= t <= PI -> acos (cos t) = Rabs t.
Proof.
  intros [Hlo Hhi]. destruct (Rle_dec 0 t) as [P | N].
  - rewrite Rabs_right by lra. apply acos_cos. lra.
  - rewrite Rabs_left by lra. rewrite <- cos_neg. apply acos_cos. lra.
Qed.

(** The geometry of [arc_to]: the unit normal it builds and the angle
    between the two vectors. *)
Lemma arc_geometry (self other : vec) :
  is_unit self -> is_unit other -> other <> self -> other <> vneg self ->
  let normal := mvec (Vector.rejection_matrix self) other in
  let n := vdiv normal (sqrt (dot normal normal)) in
  let A := Vector.angle_with_acos self other in
  is_unit n /\ dot self n = 0 /\ 0 < A < PI /\
  other = vadd (vscale (cos A) self) (vscale (sin A) n).
Proof.
  intros Hs Ho Hne Hnn normal n A.
  destruct (rejection_spec self other Hs) as [Horth Hnorm].
  fold normal in Horth, Hnorm.
  assert (Hpos : 0 < dot normal normal).
  { pose proof (dot_self_nonneg normal) as Hge.
    destruct (Req_dec (dot normal normal) 0) as [E | E]; [| lra].
    exfalso. rewrite Hnorm, Ho in E.
    destruct (unit_parallel self other Hs Ho) as [H | H]; [lra | | ]; contradiction. }
  set (d := dot self other) in *. unfold is_unit in Ho. rewrite Ho in Hnorm.
  assert (Hd : -1 < d < 1) by (split; nra).
  assert (HA : A = acos d).
  { unfold A, Vector.angle_with_acos. rewrite (unit_length self Hs), Ho, sqrt_1.
    fold d. replace (d / (1 * 1)) with d by field.
    rewrite clip_inside by lra. reflexivity. }
  assert (Hcos : cos A = d) by (rewrite HA; apply cos_acos; lra).
  assert (Hsin : sin A = sqrt (dot normal normal)).
  { rewrite HA, sin_acos by lra. f_equal. rewrite Hnorm. unfold Rsqr. ring. }
  assert (HL : 0 < sqrt (dot normal normal)) by (apply sqrt_lt_R0; exact Hpos).
  split; [apply normalize_unit; exact Hpos |].
  split; [unfold n; rewrite dot_vdiv_r, Horth; unfold Rdiv; ring |].
  split; [rewrite HA; apply acos_bound_lt; exact Hd |].
  rewrite Hcos, Hsin. unfold n.
  assert (En : normal = vsub other (vscale d self)).
  { unfold normal. rewrite rejection_mvec. reflexivity. }
  set (L := sqrt (dot normal normal)) in *. rewrite En.
  clearbody L d. clear - HL.
  destruct self as [x y z], other as [a b c].
  unfold vadd, vsub, vscale, vdiv; simpl. f_equal; field; lra.
Qed.

(** X28.  For unit vectors that are neither equal nor opposite and a
    positive step, [arc_to] starts at the vector itself and every point of
    it is a unit vector lying between the two: its angles to the start and
    to the target add up to the angle between start and target, so no
    point lies beyond the target.  (Over the reals the target itself is
    not reached; in floating point [np.arange] can add a last angle equal
    to the stop value, so the bound is stated as closed.) *)
Theorem arc_to_between (self other : vec) (step : R) :
  is_unit self -> is_unit other -> other <> self -> other <> vneg self ->
  0 < step ->
  exists rest,
    Vector.arc_to self other step = Ok (self :: rest) /\
    Forall (fun p =>
              Vector.length p = 1 /\
              Vector.angle_with_acos self p + Vector.angle_with_acos p other
              = Vector.angle_with_acos self other /\
              Vector.angle_with_acos self p <= Vector.angle_with_acos self other)
           (self :: rest).
Proof.
  intros Hs Ho Hne Hnn Hstep.
  destruct (arc_geometry self other Hs Ho Hne Hnn) as [Hn [Hon [HA Hother]]].
  unfold Vector.arc_to.
  set (normal := mvec (Vector.rejection_matrix self) other) in *.
  set (n := vdiv normal (sqrt (dot normal normal))) in *.
  set (A := Vector.angle_with_acos self other) in *.
  destruct (arange_first 0 A step Hstep) as [l Hl]; [lra |].
  pose proof (arange_bounds A step _ Hstep Hl) as Hb.
  rewrite Hl. cbn [bind map].
  assert (H0 : vadd (vscale (cos 0) self) (vscale (sin 0) n) = self).
  { rewrite cos_0, sin_0. destruct self, n. unfold vadd, vscale; simpl. f_equal; ring. }
  exists (map (fun theta => vadd (vscale (cos theta) self) (vscale (sin theta) n)) l).
  split; [rewrite H0; reflexivity |].
  rewrite <- H0 at 1.
  change (Forall
            (fun p => Vector.length p = 1 /\
                      Vector.angle_with_acos self p + Vector.angle_with_acos p other = A /\
                      Vector.angle_with_acos self p <= A)
            (map (fun theta => vadd (vscale (cos theta) self) (vscale (sin theta) n))
                 (0 :: l))).
  rewrite Forall_map. revert Hb. apply Forall_impl. intros theta [Hlo Hhi].
  set (p := vadd (vscale (cos theta) self) (vscale (sin theta) n)).
  pose proof (sin_cos_sum theta) as Ht.
  assert (Hpu : is_unit p).
  { unfold is_unit, p in *.
    replace (dot (vadd (vscale (cos theta) self) (vscale (sin theta) n))
                 (vadd (vscale (cos theta) self) (vscale (sin theta) n)))
      with (cos theta * cos theta * dot self self
            + 2 * (cos theta * sin theta) * dot self n
            + sin theta * sin theta * dot n n)
      by (unfold dot, vadd, vscale; simpl; ring).
    rewrite Hs, Hn, Hon. lra. }
  assert (Hsp : dot self p = cos theta).
  { unfold p. unfold is_unit in Hs.
    replace (dot self (vadd (vscale (cos theta) self) (vscale (sin theta) n)))
      with (cos theta * dot self self + sin theta * dot self n)
      by (unfold dot, vadd, vscale; simpl; ring).
    rewrite Hs, Hon. ring. }
  assert (Hpo : dot p other = cos (A - theta)).
  { rewrite Hother at 1. unfold p. unfold is_unit in Hs, Hn.
    replace (dot (vadd (vscale (cos theta) self) (vscale (sin theta) n))
                 (vadd (vscale (cos A) self) (vscale (sin A) n)))
      with (cos theta * cos A * dot self self
            + (cos theta * sin A + sin theta * cos A) * dot self n
            + sin theta * sin A * dot n n)
      by (unfold dot, vadd, vscale; simpl; ring).
    rewrite Hs, Hn, Hon, cos_minus. ring. }
  assert (E1 : Vector.angle_with_acos self p = theta).
  { apply angle_with_acos_unit; try assumption. lra. }
  assert (E2 : Vector.angle_with_acos p other = A - theta).
  { apply angle_with_acos_unit; try assumption. lra. }
  split; [apply unit_length; exact Hpu |]. rewrite E1, E2. split; lra.
Qed.

Lemma arc_to_between_witness :
  is_unit (V3 0 0 (-1)) /\ is_unit (V3 1 0 0) /\
  V3 1 0 0 <> V3 0 0 (-1) /\ V3 1 0 0 <> vneg (V3 0 0 (-1)) /\ 0 < radians 1 /\
  exists rest,
    Vector.arc_to (V3 0 0 (-1)) (V3 1 0 0) (radians 1) = Ok (V3 0 0 (-1) :: rest) /\
    Forall (fun p =>
              Vector.length p = 1 /\
              Vector.angle_with_acos (V3 0 0 (-1)) p + Vector.angle_with_acos p (V3 1 0 0)
              = Vector.angle_with_acos (V3 0 0 (-1)) (V3 1 0 0) /\
              Vector.angle_with_acos (V3 0 0 (-1)) p
              <= Vector.angle_with_acos (V3 0 0 (-1)) (V3 1 0 0))
           (V3 0 0 (-1) :: rest).
Proof.
  pose proof PI_RGT_0 as Hpi.
  assert (H1 : is_unit (V3 0 0 (-1))) by (unfold is_unit, dot; simpl; ring).
  assert (H2 : is_unit (V3 1 0 0)) by (unfold is_unit, dot; simpl; ring).
  assert (H3 : V3 1 0 0 <> V3 0 0 (-1)) by (intros E; injection E; intros; lra).
  assert (H4 : V3 1 0 0 <> vneg (V3 0 0 (-1))) by (intros E; injection E; intros; lra).
  assert (H5 : 0 < radians 1) by (unfold radians; lra).
  split; [exact H1 |]. split; [exact H2 |]. split; [exact H3 |].
  split; [exact H4 |]. split; [exact H5 |].
  exact (arc_to_between (V3 0 0 (-1)) (V3 1 0 0) (radians 1) H1 H2 H3 H4 H5).
Defined.

(** ** Samples *)

Lemma map_zip_with {A B C D : Type} (f : A -> B -> C) (g : C -> D) (h : B -> D)
      (P : B -> Prop) (l : list A) (l' : list B) :
  (forall a b, P b -> g (f a b) = h b) ->
  length l = length l' -> Forall P l' ->
  map g (zip_with f l l') = map h l'.
Proof.
  intros Hf. revert l'. induction l as [| a t IH]; intros [| b t'] Hlen Hall;
    simpl in *; try discriminate; [reflexivity |].
  inversion Hall as [| ? ? Hb Ht]; subst.
  rewrite Hf by exact Hb. f_equal. apply IH; [lia | exact Ht].
Qed.

(** X29.  [sample_fisher] draws the azimuths first and the deviations
    second, from consecutive states of the generator; for a unit mean
    vector each sample lies at an angle from the mean equal to the absolute
    value of its von Mises draw (taken in [-pi, pi]). *)
Theorem sample_fisher_deviation
        (G : Type) (random_uniform random_vonmises : R -> R -> nat -> G -> list R * G)
        (mean_vector : vec) (kappa : R) (n : nat) (g g1 g2 : G)
        (theta_sample alpha_sample : list R) :
  is_unit mean_vector ->
  random_uniform 0 (2 * PI) n g = (theta_sample, g1) ->
  random_vonmises 0 (kappa / 2) n g1 = (alpha_sample, g2) ->
  length theta_sample = length alpha_sample ->
  Forall (fun a => - PI <= a <= PI) alpha_sample ->
  snd (sample_fisher G random_uniform random_vonmises mean_vector kappa n g) = g2 /\
  map (Vector.angle_with_acos mean_vector)
      (fst (sample_fisher G random_uniform random_vonmises mean_vector kappa n g))
  = map Rabs alpha_sample.
Proof.
  intros Hu Hth Hal Hlen Hrange. unfold sample_fisher. rewrite Hth, Hal.
  cbn [fst snd]. split; [reflexivity |].
  apply (map_zip_with _ _ _ (fun a => - PI <= a <= PI)); [| exact Hlen | exact Hrange].
  intros theta alpha Ha.
  destruct (circle_point_unit mean_vector _ _ theta (vector_frame mean_vector Hu))
    as [Hp Ho].
  destruct (cone_point mean_vector _ alpha Hu Hp Ho) as [Hq Hd].
  unfold Vector.angle_with_acos.
  rewrite (unit_length mean_vector Hu), Hq, sqrt_1, Hd.
  replace (cos alpha / (1 * 1)) with (cos alpha) by field.
  rewrite clip_inside by apply COS_bound.
  apply acos_cos_abs. exact Ha.
Qed.

Lemma sample_fisher_deviation_witness :
  is_unit (V3 0 1 0) /\
  constant_draw 0 (2 * PI) 2 tt = ([2 * PI; 2 * PI], tt) /\
  constant_draw 0 (1 / 2) 2 tt = ([1 / 2; 1 / 2], tt) /\
  length [2 * PI; 2 * PI] = length [1 / 2; 1 / 2] /\
  Forall (fun a => - PI <= a <= PI) [1 / 2; 1 / 2] /\
  snd (sample_fisher unit constant_draw constant_draw (V3 0 1 0) 1 2 tt) = tt /\
  map (Vector.angle_with_acos (V3 0 1 0))
      (fst (sample_fisher unit constant_draw constant_draw (V3 0 1 0) 1 2 tt))
  = map Rabs [1 / 2; 1 / 2].
Proof.
  pose proof PI_RGT_0 as Hpi. pose proof PI2_1 as Hp1.
  assert (H1 : is_unit (V3 0 1 0)) by (unfold is_unit, dot; simpl; ring).
  assert (H2 : constant_draw 0 (2 * PI) 2 tt = ([2 * PI; 2 * PI], tt)) by reflexivity.
  assert (H3 : constant_draw 0 (1 / 2) 2 tt = ([1 / 2; 1 / 2], tt)) by reflexivity.
  assert (H4 : length [2 * PI; 2 * PI] = length [1 / 2; 1 / 2]) by reflexivity.
  assert (H5 : Forall (fun a => - PI <= a <= PI) [1 / 2; 1 / 2]).
  { repeat constructor; lra. }
  split; [exact H1 |]. split; [exact H2 |]. split; [exact H3 |].
  split; [exact H4 |]. split; [exact H5 |].
  exact (sample_fisher_deviation unit constant_draw constant_draw (V3 0 1 0) 1 2
           tt tt tt [2 * PI; 2 * PI] [1 / 2; 1 / 2] H1 H2 H3 H4 H5).
Defined.

(** X30.  [sample_uniform] takes one batch of normal draws from the
    generator and returns one vector per draw, each the draw divided by its
    own length: a unit vector pointing the same way as the draw. *)
Theorem sample_uniform_directions
        (G : Type) (random_normal : nat -> G -> list vec * G)
        (n : nat) (g g1 : G) (samples : list vec) :
  random_normal n g = (samples, g1) ->
  Forall (fun s => 0 < dot s s) samples ->
  snd (sample_uniform G random_normal n g) = g1 /\
  length (fst (sample_uniform G random_normal n g)) = length samples /\
  forall i s, nth_error samples i = Some s ->
    exists p, nth_error (fst (sample_uniform G random_normal n g)) i = Some p /\
              Vector.length p = 1 /\
              s = vscale (Vector.length s) p /\ 0 < Vector.length s.
Proof.
  intros Hn Hnz. unfold sample_uniform. rewrite Hn. cbn [fst snd].
  split; [reflexivity |]. split; [apply length_map |].
  intros i s Hi. rewrite nth_error_map, Hi. simpl.
  eexists. split; [reflexivity |].
  rewrite Forall_forall in Hnz. pose proof (Hnz s (nth_error_In _ _ Hi)) as Hs.
  pose proof (length_pos s Hs) as HL.
  split; [apply unit_length, normalize_unit; exact Hs |].
  split; [| exact HL].
  fold (Vector.length s). destruct s as [x y z].
  unfold vscale, vdiv; simpl. f_equal; field; lra.
Qed.

Lemma sample_uniform_directions_witness :
  constant_normal (V3 1 2 2) 2 tt = ([V3 1 2 2; V3 1 2 2], tt) /\
  Forall (fun s => 0 < dot s s) [V3 1 2 2; V3 1 2 2] /\
  snd (sample_uniform unit (constant_normal (V3 1 2 2)) 2 tt) = tt /\
  length (fst (sample_uniform unit (constant_normal (V3 1 2 2)) 2 tt))
  = length [V3 1 2 2; V3 1 2 2] /\
  forall i s, nth_error [V3 1 2 2; V3 1 2 2] i = Some s ->
    exists p,
      nth_error (fst (sample_uniform unit (constant_normal (V3 1 2 2)) 2 tt)) i
      = Some p /\
      Vector.length p = 1 /\
      s = vscale (Vector.length s) p /\ 0 < Vector.length s.
Proof.
  assert (H1 : constant_normal (V3 1 2 2) 2 tt = ([V3 1 2 2; V3 1 2 2], tt))
    by reflexivity.
  assert (H2 : Forall (fun s => 0 < dot s s) [V3 1 2 2; V3 1 2 2]).
  { repeat constructor; unfold dot; simpl; lra. }
  split; [exact H1 |]. split; [exact H2 |].
  exact (sample_uniform_directions unit (constant_normal (V3 1 2 2)) 2 tt tt
           [V3 1 2 2; V3 1 2 2] H1 H2).
Defined.
